(** * The reStructuredText preview engine ([src/preview/rstEngine.ts])

    A shallow embedding of [RSTEngine]: the backend selector and readiness
    gate of [compile], the output path computation, the document loader
    [previewPage], the link rewriter [fixLinks], the status pages and the
    public entry point [preview].

    JavaScript strings are lists of code units; the development covers
    code units below 256 (type [ascii]).  Numbers returned by [indexOf]
    and [lastIndexOf] are integers ([Z]), with [-1] for "not found".
    Collaborators of the engine (the file system, the Python runner, the
    status bar, the Esbonio client, the webview and the settings) are
    fields of records that a request is run against; what a request does to
    them is recorded as a list of events. *)

From Stdlib Require Import String Ascii List Arith ZArith Lia Bool.
Import ListNotations.

Set Implicit Arguments.

(** ** JavaScript strings *)

Definition jsstring := list ascii.

(** A string literal of the source. *)
Definition lit (s : string) : jsstring := list_ascii_of_string s.

Definition chSlash : ascii := "/"%char.
Definition chDot : ascii := "."%char.
Definition chHash : ascii := "#"%char.
Definition chQuestion : ascii := "?"%char.
Definition chQuote : ascii := "'"%char.
Definition chDQuote : ascii := ascii_of_nat 34.
Definition chLF : ascii := ascii_of_nat 10.
Definition chCR : ascii := ascii_of_nat 13.

(** The one-character string holding a double quote. *)
Definition dq : jsstring := [chDQuote].

Definition jsstring_eqb (a b : jsstring) : bool :=
  if list_eq_dec ascii_dec a b then true else false.

Module JS.

(** [s.startsWith(prefix)] *)
Fixpoint startsWith (s prefix : jsstring) {struct prefix} : bool :=
  match prefix, s with
  | [], _ => true
  | _ :: _, [] => false
  | p :: prefix', c :: s' => Ascii.eqb c p && startsWith s' prefix'
  end.

(** Index of the first [c] in [s], counted from [i]. *)
Fixpoint indexFrom (c : ascii) (s : jsstring) (i : nat) : option nat :=
  match s with
  | [] => None
  | x :: s' => if Ascii.eqb x c then Some i else indexFrom c s' (S i)
  end.

(** [s.indexOf(c)] for a one-character [c]: [-1] when absent. *)
Definition indexOf (s : jsstring) (c : ascii) : Z :=
  match indexFrom c s 0 with
  | Some i => Z.of_nat i
  | None => (-1)%Z
  end.

(** [s.lastIndexOf(c)] for a one-character [c]: [-1] when absent. *)
Definition lastIndexOf (s : jsstring) (c : ascii) : Z :=
  match indexFrom c (rev s) 0 with
  | Some j => Z.of_nat (length s - 1 - j)
  | None => (-1)%Z
  end.

(** [s.substring(a, b)]: both ends are clamped to [0 .. s.length] and
    swapped when out of order. *)
Definition clamp (s : jsstring) (i : Z) : nat :=
  Nat.min (Z.to_nat i) (length s).

Definition substring (s : jsstring) (a b : Z) : jsstring :=
  let a' := clamp s a in
  let b' := clamp s b in
  let lo := Nat.min a' b' in
  let hi := Nat.max a' b' in
  firstn (hi - lo) (skipn lo s).

(** [s.toLowerCase()] on code units below 256: A-Z, and the Latin-1
    capitals 192-222 except the multiplication sign 215. *)
Definition lowerUnit (c : ascii) : ascii :=
  let n := nat_of_ascii c in
  if ((65 <=? n) && (n <=? 90)) || ((192 <=? n) && (n <=? 222) && negb (n =? 215))
  then ascii_of_nat (n + 32)
  else c.

Definition toLowerCase (s : jsstring) : jsstring := map lowerUnit s.

(** [parts.join(sep)] *)
Fixpoint join (sep : jsstring) (parts : list jsstring) : jsstring :=
  match parts with
  | [] => []
  | [p] => p
  | p :: rest => p ++ sep ++ join sep rest
  end.

(** [s.split('/')]: never empty, the empty string gives one empty part. *)
Fixpoint split (c : ascii) (s : jsstring) : list jsstring :=
  match s with
  | [] => [[]]
  | x :: s' =>
      if Ascii.eqb x c then [] :: split c s'
      else match split c s' with
           | seg :: segs => (x :: seg) :: segs
           | [] => [[x]]
           end
  end.

End JS.

(** ** Node's [path] module, POSIX flavour

    The engine calls [path.join], [path.dirname], [path.basename] and
    [path.relative].  They are modelled on the segments of a path, as
    [path.posix] computes them; [cwd] stands for [process.cwd()], which
    [path.relative] consults for paths that are not absolute. *)

Module Path.

Definition dot : jsstring := [chDot].
Definition dotdot : jsstring := [chDot; chDot].

Definition isAbsolute (p : jsstring) : bool :=
  match p with
  | c :: _ => Ascii.eqb c chSlash
  | [] => false
  end.

Definition endsWithSlash (p : jsstring) : bool :=
  match rev p with
  | c :: _ => Ascii.eqb c chSlash
  | [] => false
  end.

(** One step of [normalizeString]: the segments kept so far are held
    last-first. *)
Definition pushSegment (allowAboveRoot : bool) (kept : list jsstring)
           (seg : jsstring) : list jsstring :=
  if jsstring_eqb seg [] || jsstring_eqb seg dot then kept
  else if jsstring_eqb seg dotdot then
    match kept with
    | top :: below =>
        if jsstring_eqb top dotdot
        then (if allowAboveRoot then dotdot :: kept else kept)
        else below
    | [] => if allowAboveRoot then [dotdot] else []
    end
  else seg :: kept.

Definition normalizeSegments (allowAboveRoot : bool) (p : jsstring)
  : list jsstring :=
  rev (fold_left (pushSegment allowAboveRoot) (JS.split chSlash p) []).

Definition normalizeString (allowAboveRoot : bool) (p : jsstring) : jsstring :=
  JS.join [chSlash] (normalizeSegments allowAboveRoot p).

(** [path.normalize(p)] *)
Definition normalize (p : jsstring) : jsstring :=
  match p with
  | [] => dot
  | _ =>
      let isAbs := isAbsolute p in
      let trailing := endsWithSlash p in
      let body := normalizeString (negb isAbs) p in
      match body with
      | [] => if isAbs then [chSlash] else if trailing then dot ++ [chSlash] else dot
      | _ =>
          let body' := if trailing then body ++ [chSlash] else body in
          if isAbs then chSlash :: body' else body'
      end
  end.

(** [path.join(...parts)]: empty parts are dropped, the rest joined with
    a slash and normalized. *)
Definition join (parts : list jsstring) : jsstring :=
  match filter (fun p => negb (jsstring_eqb p [])) parts with
  | [] => dot
  | kept => normalize (JS.join [chSlash] kept)
  end.

Fixpoint dropWhile (f : ascii -> bool) (s : jsstring) : jsstring :=
  match s with
  | [] => []
  | c :: s' => if f c then dropWhile f s' else s
  end.

Fixpoint takeWhile (f : ascii -> bool) (s : jsstring) : jsstring :=
  match s with
  | [] => []
  | c :: s' => if f c then c :: takeWhile f s' else []
  end.

Definition isSlash (c : ascii) : bool := Ascii.eqb c chSlash.
Definition notSlash (c : ascii) : bool := negb (isSlash c).

(** [path.dirname(p)]: scanning from the end down to index 1, trailing
    slashes are passed over, then the last segment; the slash found
    there ends the directory. *)
Definition dirname (p : jsstring) : jsstring :=
  match p with
  | [] => dot
  | first :: rest =>
      let hasRoot := isSlash first in
      match dropWhile notSlash (dropWhile isSlash (rev rest)) with
      | [] => if hasRoot then [chSlash] else dot
      | _ :: before =>
          let endIdx := S (length before) in
          if hasRoot && (endIdx =? 1) then [chSlash; chSlash]
          else firstn endIdx p
      end
  end.

(** [path.basename(p)]: the last segment, trailing slashes ignored. *)
Definition basename (p : jsstring) : jsstring :=
  rev (takeWhile notSlash (dropWhile isSlash (rev p))).

(** [path.resolve(p)] for one argument. *)
Definition resolve (cwd p : jsstring) : jsstring :=
  let below := match p with [] => [] | _ => p ++ [chSlash] end in
  let joined :=
    if isAbsolute p then below
    else match cwd with
         | [] => below
         | _ => cwd ++ [chSlash] ++ below
         end in
  let isAbs := isAbsolute joined in
  let body := normalizeString (negb isAbs) joined in
  if isAbs then chSlash :: body
  else match body with [] => dot | _ => body end.

(** The segments of a resolved path below the root. *)
Definition segmentsOf (resolved : jsstring) : list jsstring :=
  filter (fun seg => negb (jsstring_eqb seg [])) (JS.split chSlash resolved).

Fixpoint dropCommon (from to : list jsstring)
  : list jsstring * list jsstring :=
  match from, to with
  | f :: from', t :: to' =>
      if jsstring_eqb f t then dropCommon from' to' else (from, to)
  | _, _ => (from, to)
  end.

(** [path.relative(from, to)]: both are resolved, the common leading
    segments dropped, one [..] written per remaining segment of [from],
    then what remains of [to]. *)
Definition relative (cwd from to : jsstring) : jsstring :=
  if jsstring_eqb from to then []
  else
    let from' := resolve cwd from in
    let to' := resolve cwd to in
    if jsstring_eqb from' to' then []
    else
      let (up, down) := dropCommon (segmentsOf from') (segmentsOf to') in
      JS.join [chSlash] (map (fun _ => dotdot) up ++ down).

End Path.

(** ** Values, exceptions, promises and effects *)

Record Uri := { fsPath : jsstring }.

(** [vscode.Uri.file(p)] *)
Definition Uri_file (p : jsstring) : Uri := {| fsPath := p |}.

(** An [Error] object; [stack] may be undefined. *)
Record JsError := {
  errName : jsstring;
  errMessage : jsstring;
  errStack : option jsstring
}.

(** What a [throw] or a rejection carries: an [Error], or a plain string. *)
Inductive Thrown :=
| ThrownError (e : JsError)
| ThrownString (s : jsstring).

(** [e.toString()] *)
Definition Thrown_toString (t : Thrown) : jsstring :=
  match t with
  | ThrownString s => s
  | ThrownError e =>
      match errName e, errMessage e with
      | [], msg => msg
      | name, [] => name
      | name, msg => name ++ lit ": " ++ msg
      end
  end.

Definition TypeError (msg : string) : Thrown :=
  ThrownError {| errName := lit "TypeError"; errMessage := lit msg; errStack := None |}.

(** A settled promise. *)
Inductive Promise (A : Type) :=
| Fulfilled (a : A)
| Rejected (t : Thrown).
Arguments Rejected {A} t.

(** What a request does to the engine's collaborators, in order. *)
Inductive Event :=
| EvLog (msg : jsstring)
| EvExistsSync (path : jsstring)
| EvReadFile (path : jsstring)
| EvStatusReset
| EvRefreshConfig (uri : Uri)
| EvPythonExec (args : list jsstring).

Inductive Completion (A : Type) :=
| Normal (a : A)
| Throw (t : Thrown).
Arguments Throw {A} t.

(** A computation: the events it emits and how it completes. *)
Definition Eff (A : Type) : Type := (list Event * Completion A)%type.

Definition ret {A} (a : A) : Eff A := ([], Normal a).
Definition throw {A} (t : Thrown) : Eff A := ([], Throw t).
Definition emit (e : Event) : Eff unit := ([e], Normal tt).

Definition bind {A B} (m : Eff A) (k : A -> Eff B) : Eff B :=
  match m with
  | (tr, Normal a) => let (tr', c) := k a in (tr ++ tr', c)
  | (tr, Throw t) => (tr, Throw t)
  end.

Notation "x <- m ;; k" := (bind m (fun x => k))
  (at level 61, m at next level, right associativity).
Notation "m ;;; k" := (bind m (fun _ => k))
  (at level 61, right associativity).

(** [try { body } catch (e) { handler }] *)
Definition tryCatch {A} (body : Eff A) (handler : Thrown -> Eff A) : Eff A :=
  match body with
  | (tr, Normal a) => (tr, Normal a)
  | (tr, Throw t) => let (tr', c) := handler t in (tr ++ tr', c)
  end.

(** [await p]: the value of a fulfilled promise; a rejection is thrown at
    the [await]. *)
Definition await {A} (p : Promise A) : Eff A :=
  match p with
  | Fulfilled a => ret a
  | Rejected t => throw t
  end.

(** What the body of an [async] function returns: a value, or a promise
    that was not awaited. *)
Inductive AsyncReturn (A : Type) :=
| ReturnValue (a : A)
| ReturnPromise (p : Promise A).

(** An [async] function: its promise is fulfilled with a returned value,
    follows a returned promise, and is rejected by an exception that
    leaves the body. *)
Definition async {A} (body : Eff (AsyncReturn A)) : Eff (Promise A) :=
  match body with
  | (tr, Normal (ReturnValue a)) => (tr, Normal (Fulfilled a))
  | (tr, Normal (ReturnPromise p)) => (tr, Normal p)
  | (tr, Throw t) => (tr, Normal (Rejected t))
  end.

Definition events {A} (m : Eff A) : list Event := fst m.
Definition outcome {A} (m : Eff A) : Completion A := snd m.

(** ** Collaborators *)

(** [Python.exec(...args)]: how the invocation settles. *)
Record Python := { exec : list jsstring -> Promise jsstring }.

Record StatusConfig := { confPyDirectory : jsstring }.

(** [RstTransformerStatus]: [refreshConfig] settles with the value
    [config] holds afterwards; [reset] settles with nothing. *)
Record RstTransformerStatus := {
  config : option StatusConfig;
  refreshConfig : Uri -> Promise (option StatusConfig);
  reset : Promise unit
}.

Record SphinxConfig := { buildDir : jsstring }.

Record EsbonioClient := {
  error : bool;
  ready : bool;
  sphinxConfig : SphinxConfig
}.

Record Webview := { asWebviewUri : Uri -> jsstring }.

Record TextDocument := { fileName : jsstring; uri : Uri }.

Module Configuration.
Record t := {
  getPreviewName : jsstring;
  getDocutilsWriter : Uri -> jsstring;
  getDocutilsWriterPart : Uri -> jsstring
}.
End Configuration.

(** A path on disk: nothing there, something that cannot be read, or a
    file with its text. *)
Inductive FsEntry :=
| NoEntry
| Unreadable (e : JsError)
| Readable (data : jsstring).

(** The process the extension runs in. *)
Record Host := {
  settings : Configuration.t;
  disk : jsstring -> FsEntry;
  dirname__ : jsstring;          (* [__dirname] *)
  cwd : jsstring                 (* [process.cwd()] *)
}.

Module Fs.

Definition ENOENT (p : jsstring) : JsError :=
  {| errName := lit "Error";
     errMessage := lit "ENOENT: no such file or directory, open '" ++ p ++ lit "'";
     errStack := Some (lit "Error: ENOENT: no such file or directory, open '" ++ p ++ lit "'") |}.

(** [fs.existsSync(p)] *)
Definition existsSync (h : Host) (p : jsstring) : Eff bool :=
  emit (EvExistsSync p) ;;;
  ret (match disk h p with NoEntry => false | _ => true end).

(** [fs.readFile(p, 'utf8', callback)]: what the callback receives. *)
Definition readFile (h : Host) (p : jsstring) : Eff (JsError + jsstring) :=
  emit (EvReadFile p) ;;;
  ret (match disk h p with
       | NoEntry => inl (ENOENT p)
       | Unreadable e => inl e
       | Readable data => inr data
       end).

End Fs.

Record RSTEngine := {
  python : Python;
  status : option RstTransformerStatus;
  esbonio : EsbonioClient
}.

Definition log (msg : jsstring) : Eff unit := emit (EvLog msg).
(** ** The regular expression of [fixLinks]

    [new RegExp('((?:src|href)=[...])(.*?)([...])', 'gmi')], both classes
    holding the single and the double quote: an attribute name in any
    letter case, an equals sign and a quote (group 1); as few characters
    as possible, none of them a line terminator (group 2); a quote
    (group 3). *)

Module RegExp.

Record Match := { p1 : jsstring; p2 : jsstring; p3 : jsstring }.

(** The matched text, [subString] in the callback. *)
Definition subString (m : Match) : jsstring := p1 m ++ p2 m ++ p3 m.

Definition isQuote (c : ascii) : bool :=
  Ascii.eqb c chQuote || Ascii.eqb c chDQuote.

Definition isLineTerminator (c : ascii) : bool :=
  Ascii.eqb c chLF || Ascii.eqb c chCR.

(** Letter case is ignored (flag [i]).  The characters of the pattern
    are ASCII, and a character outside ASCII never equals one of them,
    so folding the letters a-z is all the comparison needs. *)
Definition upperUnit (c : ascii) : ascii :=
  let n := nat_of_ascii c in
  if (97 <=? n) && (n <=? 122) then ascii_of_nat (n - 32) else c.

Definition eqIgnoreCase (c pat : ascii) : bool :=
  Ascii.eqb (upperUnit c) (upperUnit pat).

(** A literal of the pattern at the head of [s]: the text it matched and
    what follows. *)
Fixpoint literal (pat s : jsstring) : option (jsstring * jsstring) :=
  match pat, s with
  | [], _ => Some ([], s)
  | _ :: _, [] => None
  | p :: pat', c :: s' =>
      if eqIgnoreCase c p then
        match literal pat' s' with
        | Some (m, rest) => Some (c :: m, rest)
        | None => None
        end
      else None
  end.

(** Group 1 at the head of [s]. *)
Definition opener (s : jsstring) : option (jsstring * jsstring) :=
  let name :=
    match literal (lit "src=") s with
    | Some r => Some r
    | None => literal (lit "href=") s
    end in
  match name with
  | Some (m, c :: rest) => if isQuote c then Some (m ++ [c], rest) else None
  | _ => None
  end.

(** Groups 2 and 3 at the head of [s]: the lazy star gives up one
    character at a time until a quote follows. *)
Fixpoint value (s : jsstring) : option (jsstring * jsstring * jsstring) :=
  match s with
  | [] => None
  | c :: s' =>
      if isQuote c then Some ([], [c], s')
      else if isLineTerminator c then None
      else match value s' with
           | Some (v, q, rest) => Some (c :: v, q, rest)
           | None => None
           end
  end.

(** The whole pattern at the head of [s]. *)
Definition execAt (s : jsstring) : option (Match * jsstring) :=
  match opener s with
  | Some (g1, s1) =>
      match value s1 with
      | Some (g2, g3, rest) => Some ({| p1 := g1; p2 := g2; p3 := g3 |}, rest)
      | None => None
      end
  | None => None
  end.

(** A global scan cuts the subject into matches and the characters
    between them: at each position the pattern is tried; after a match
    the scan goes on behind it, otherwise one character further. *)
Inductive Segment :=
| Verbatim (c : ascii)
| Matched (m : Match).

Fixpoint scanFrom (fuel : nat) (s : jsstring) : list Segment :=
  match fuel, s with
  | S fuel', c :: s' =>
      match execAt s with
      | Some (m, rest) => Matched m :: scanFrom fuel' rest
      | None => Verbatim c :: scanFrom fuel' s'
      end
  | _, _ => []
  end.

Definition scan (s : jsstring) : list Segment := scanFrom (length s) s.

Definition sourceOf (seg : Segment) : jsstring :=
  match seg with
  | Verbatim c => [c]
  | Matched m => subString m
  end.

(** [s.replace(re, callback)] with the global flag. *)
Definition replaceSegment
           (callback : jsstring -> jsstring -> jsstring -> jsstring -> jsstring)
           (seg : Segment) : jsstring :=
  match seg with
  | Verbatim c => [c]
  | Matched m => callback (subString m) (p1 m) (p2 m) (p3 m)
  end.

Definition replace
           (callback : jsstring -> jsstring -> jsstring -> jsstring -> jsstring)
           (s : jsstring) : jsstring :=
  concat (map (replaceSegment callback) (scan s)).

End RegExp.

(** ** The engine *)

(** [RSTEngine.errorSnippet] *)
Definition errorSnippet (error : jsstring) : jsstring :=
  lit "<html><body>" ++ error ++ lit "</body></html>".

(** [RSTEngine.showHelp] *)
Definition showHelp (description error : jsstring) : jsstring :=
  lit "<body>"
  ++ lit "    <section>"
  ++ lit "      <article>"
  ++ lit "        <header>"
  ++ lit "          <h2>Cannot show preview page.</h2>"
  ++ lit "          <h4>Description:</h4>"
  ++ lit "          " ++ description
  ++ lit "          <h4>Detailed error message</h4>"
  ++ lit "          <pre>" ++ error ++ lit "</pre>"
  ++ lit "          <h4>More Information</h4>"
  ++ lit "          <p>Diagnostics information has been written to OUTPUT | Esbonio Language Server panel.</p>"
  ++ lit "          <p>The troubleshooting guide can be found at</p>"
  ++ lit "          <pre>https://docs.restructuredtext.net/articles/troubleshooting.html</pre>"
  ++ lit "        </header>"
  ++ lit "      </article>"
  ++ lit "    </section>"
  ++ lit "  </body>".

(** [RSTEngine.showWait] *)
Definition showWait : jsstring :=
  lit "<body>"
  ++ lit "    <section>"
  ++ lit "      <article>"
  ++ lit "        <header>"
  ++ lit "          <h2>Esbonio is busy.</h2>"
  ++ lit "          <h4>Description:</h4>"
  ++ lit "          <p>Esbonio is still working in the background. This panel will automatically refresh when the preview page is ready.</p>"
  ++ lit "          <h4>More Information</h4>"
  ++ lit "          <p>Diagnostics information has been written to OUTPUT | Esbonio Language Server panel.</p>"
  ++ lit "          <p>The troubleshooting guide can be found at</p>"
  ++ lit "          <pre>https://docs.restructuredtext.net/articles/troubleshooting.html</pre>"
  ++ lit "        </header>"
  ++ lit "      </article>"
  ++ lit "    </section>"
  ++ lit "  </body>".

(** The test of the callback of [fixLinks] that leaves a match alone. *)
Definition isAnchorOrHttp (p2 : jsstring) : bool :=
  let lower := JS.toLowerCase p2 in
  JS.startsWith p2 (lit "#")
  || JS.startsWith lower (lit "http://")
  || JS.startsWith lower (lit "https://").

(** The value without its query: cut at the first question mark. *)
Definition stripQuery (p2 : jsstring) : jsstring :=
  let index := JS.indexOf p2 chQuestion in
  if (index >? -1)%Z then JS.substring p2 0 index else p2.

(** The callback handed to [replace] in [fixLinks]. *)
Definition fixLink (documentPath : jsstring) (webView : Webview)
           (subString p1 p2 p3 : jsstring) : jsstring :=
  if isAnchorOrHttp p2 then subString
  else
    let p2 := stripQuery p2 in
    let newPath := Uri_file (Path.join [Path.dirname documentPath; p2]) in
    let newUrl := JS.join [] [p1; asWebviewUri webView newPath; p3] in
    newUrl.

(** [RSTEngine.fixLinks] *)
Definition fixLinks (document documentPath : jsstring) (webView : Webview)
  : jsstring :=
  RegExp.replace (fixLink documentPath webView) document.

(** The description of the page shown when the HTML file cannot be read. *)
Definition cannotReadDescription (htmlPath : jsstring) : jsstring :=
  lit "<p>Cannot read preview page " ++ dq ++ htmlPath ++ dq ++ lit ".</p>"
  ++ lit "                      <p>Possible causes are,</p>"
  ++ lit "                      <ul>"
  ++ lit "                      <li>A wrong " ++ dq ++ lit "conf.py" ++ dq ++ lit " file is selected.</li>"
  ++ lit "                      <li>Wrong value is set on " ++ dq ++ lit "esbonio.sphinx.buildDir" ++ dq ++ lit ".</li>"
  ++ lit "                      </ul>".

(** [[err.name, err.message, err.stack].join(newline)]: an undefined
    element is joined as the empty string. *)
Definition errorLines (err : JsError) : jsstring :=
  JS.join [chLF]
    [errName err; errMessage err;
     match errStack err with Some st => st | None => [] end].

(** [RSTEngine.previewPage]: the promise is settled by the callback of
    [fs.readFile], which resolves it in both of its branches.  The
    parameter [fixLinks] of the source is [doFixLinks] here, the method of
    that name being [fixLinks]. *)
Definition previewPage (h : Host) (htmlPath input : jsstring)
           (doFixLinks : bool) (webView : Webview) : Eff (Promise jsstring) :=
  log (lit "[preview] Working directory: " ++ input) ;;;
  log (lit "[preview] HTML file: " ++ htmlPath) ;;;
  r <- Fs.readFile h htmlPath ;;
  match r with
  | inr data =>
      if doFixLinks then ret (Fulfilled (fixLinks data htmlPath webView))
      else ret (Fulfilled data)
  | inl err =>
      let description := cannotReadDescription htmlPath in
      let errorMessage := errorLines err in
      ret (Fulfilled (showHelp description errorMessage))
  end.

(** The path of the built HTML file (the block of [compile] headed
    "Calculate full path to built html file"). *)
Definition htmlPathOf (h : Host) (fsPath confPyDirectory output : jsstring)
  : jsstring :=
  let whole := fsPath in
  let ext := JS.lastIndexOf whole chDot in
  let whole := JS.substring whole 0 ext ++ lit ".html" in
  let source := Path.dirname whole in
  let sourceRelative := Path.relative (cwd h) confPyDirectory source in
  let outputRelative := Path.relative (cwd h) confPyDirectory output in
  Path.join [confPyDirectory; outputRelative; sourceRelative; Path.basename whole].

(** The first test of [compile]: docutils is used when no [conf.py]
    directory is known or the setting [preview.name] asks for it. *)
Definition usesDocutils (h : Host) (confPyDirectory : jsstring) : bool :=
  jsstring_eqb confPyDirectory []
  || jsstring_eqb (Configuration.getPreviewName (settings h)) (lit "docutils").

(** [RSTEngine.compile] *)
Definition compile (h : Host) (this : RSTEngine)
           (fileName : jsstring) (uri : Uri) (confPyDirectory : jsstring)
           (doFixLinks : bool) (webview : Webview) : Eff (Promise jsstring) :=
  async (
    log (lit "[preview] Compiling file: " ++ fileName) ;;;
    if usesDocutils h confPyDirectory then
      (if jsstring_eqb (Configuration.getPreviewName (settings h)) (lit "docutils")
       then log (lit "[preview] Forced to use docutils due to setting " ++ dq
                 ++ lit "preview.name" ++ dq ++ lit ".")
       else ret tt) ;;;
      (* docutils *)
      let writer := Configuration.getDocutilsWriter (settings h) uri in
      let writerPart := Configuration.getDocutilsWriterPart (settings h) uri in
      let args :=
        [dq ++ Path.join [dirname__ h; lit ".."; lit ".."; lit "python-scripts"; lit "preview.py"] ++ dq;
         dq ++ fileName ++ dq;
         dq ++ writer ++ dq;
         dq ++ writerPart ++ dq] in
      emit (EvPythonExec args) ;;;
      html <- await (exec (python this) args) ;;
      ret (ReturnValue html)
    else
      (* sphinx *)
      let input := confPyDirectory in
      log (lit "[preview] Sphinx conf.py directory: " ++ input) ;;;
      (* Make sure the conf.py file exists *)
      let confFile := Path.join [input; lit "conf.py"] in
      found <- Fs.existsSync h confFile ;;
      (if negb found then
         match status this with
         | None => throw (TypeError "Cannot read properties of null (reading 'reset')")
         | Some st =>
             emit EvStatusReset ;;;
             await (reset st) ;;;
             log (lit "[preview] conf.py not found. Refresh the settings.") ;;;
             log (lit "[preview] Sphinx conf.py directory: " ++ confPyDirectory)
         end
       else ret tt) ;;;
      let input := confPyDirectory in
      (* The directory where Sphinx will write the html output *)
      if error (esbonio this) then
        ret (ReturnValue (showHelp (lit "<p>Esbonio detected build errors.</p>") (lit "Not Available")))
      else if negb (ready (esbonio this)) then
        ret (ReturnValue showWait)
      else
        let output := buildDir (sphinxConfig (esbonio this)) in
        log (lit "[preview] Sphinx html directory: " ++ output) ;;;
        (* Calculate full path to built html file. *)
        let htmlPath := htmlPathOf h (fsPath uri) confPyDirectory output in
        p <- previewPage h htmlPath input doFixLinks webview ;;
        ret (ReturnPromise p)
  ).

(** [RSTEngine.preview] *)
Definition preview (h : Host) (this : RSTEngine)
           (doc : TextDocument) (webview : Webview) : Eff (Promise jsstring) :=
  async (
    tryCatch
      (match status this with
       | None =>
           p <- compile h this (fileName doc) (uri doc) [] true webview ;;
           ret (ReturnPromise p)
       | Some st =>
           cfg <- match config st with
                  | None =>
                      emit (EvRefreshConfig (uri doc)) ;;;
                      await (refreshConfig st (uri doc))
                  | Some c => ret (Some c)
                  end ;;
           dir <- match cfg with
                  | None => throw (TypeError "Cannot read properties of null (reading 'confPyDirectory')")
                  | Some c => ret (confPyDirectory c)
                  end ;;
           p <- compile h this (fileName doc) (uri doc) dir true webview ;;
           ret (ReturnPromise p)
       end)
      (fun e => ret (ReturnValue (errorSnippet (Thrown_toString e))))
  ).

Unset Implicit Arguments.

(** ** Observations on a request *)

Definition isFsAccess (e : Event) : bool :=
  match e with
  | EvExistsSync _ | EvReadFile _ => true
  | _ => false
  end.

(** The file system accesses of a request, in order. *)
Definition fsAccesses (tr : list Event) : list Event := filter isFsAccess tr.

(** [conf.py] in the directory of a Sphinx request. *)
Definition confFileOf (confPyDirectory : jsstring) : jsstring :=
  Path.join [confPyDirectory; lit "conf.py"].

Definition confPyFound (h : Host) (confPyDirectory : jsstring) : bool :=
  match disk h (confFileOf confPyDirectory) with
  | NoEntry => false
  | _ => true
  end.

(** The status bar is there and its [reset] is fulfilled. *)
Definition resetSettles (this : RSTEngine) : bool :=
  match status this with
  | Some st => match reset st with Fulfilled _ => true | Rejected _ => false end
  | None => false
  end.

(** The page of the readiness gate for a failed build. *)
Definition buildErrorPage : jsstring :=
  showHelp (lit "<p>Esbonio detected build errors.</p>") (lit "Not Available").

(** [needle] occurs in [hay]. *)
Definition Contains (needle hay : jsstring) : Prop :=
  exists before after, hay = before ++ needle ++ after.

(** The number of positions of [hay] at which [needle] starts. *)
Fixpoint countOccurrences (needle hay : jsstring) : nat :=
  match hay with
  | [] => 0
  | _ :: hay' =>
      (if JS.startsWith hay needle then 1 else 0) + countOccurrences needle hay'
  end.

(** ** A sample project, used to run the engine on concrete requests *)

Module Sample.

Definition sphinxSettings : Configuration.t :=
  {| Configuration.getPreviewName := lit "sphinx";
     Configuration.getDocutilsWriter := fun _ => lit "html";
     Configuration.getDocutilsWriterPart := fun _ => lit "html_body" |}.

(** A project in [/proj] with its [conf.py] and nothing built yet. *)
Definition host : Host :=
  {| settings := sphinxSettings;
     disk := fun p => if jsstring_eqb p (lit "/proj/conf.py") then Readable [] else NoEntry;
     dirname__ := lit "/ext/out/preview";
     cwd := lit "/" |}.

Definition statusBar : RstTransformerStatus :=
  {| config := Some {| confPyDirectory := lit "/proj" |};
     refreshConfig := fun _ => Fulfilled (Some {| confPyDirectory := lit "/proj" |});
     reset := Fulfilled tt |}.

Definition failing : Thrown := ThrownString (lit "python exited with code 1").

(** An engine whose renderer invocation is rejected. *)
Definition engine (bar : option RstTransformerStatus) (failed isReady : bool)
  : RSTEngine :=
  {| python := {| exec := fun _ => Rejected failing |};
     status := bar;
     esbonio := {| error := failed; ready := isReady;
                   sphinxConfig := {| buildDir := lit "/proj/_build/html" |} |} |}.

Definition webview : Webview :=
  {| asWebviewUri := fun u => lit "sandbox:/" ++ fsPath u |}.

Definition document (path : string) : TextDocument :=
  {| fileName := lit path; uri := Uri_file (lit path) |}.

End Sample.

(** ** Notions used in the statements *)

(** A search that decides [Contains] on given texts. *)
Fixpoint includes (hay needle : jsstring) : bool :=
  JS.startsWith hay needle
  || match hay with
     | [] => false
     | _ :: hay' => includes hay' needle
     end.

(** The two causes the page gives for an HTML file that cannot be read. *)
Definition causeWrongConfPy : jsstring :=
  lit "<li>A wrong " ++ dq ++ lit "conf.py" ++ dq ++ lit " file is selected.</li>".

Definition causeWrongBuildDir : jsstring :=
  lit "<li>Wrong value is set on " ++ dq ++ lit "esbonio.sphinx.buildDir" ++ dq ++ lit ".</li>".

(** The stack of an error as [join] writes it. *)
Definition stackText (err : JsError) : jsstring :=
  match errStack err with Some st => st | None => [] end.

Definition allUnits : list ascii := map ascii_of_nat (seq 0 256).

Definition chEquals : ascii := "="%char.

(** A [src] or [href] attribute opens somewhere in the document: the
    name in any letter case, an equals sign, a quote. *)
Definition HasAttribute (document : jsstring) : Prop :=
  exists before name quote after,
    document = before ++ name ++ [chEquals] ++ [quote] ++ after
    /\ (JS.toLowerCase name = lit "src" \/ JS.toLowerCase name = lit "href")
    /\ (quote = chQuote \/ quote = chDQuote).

Definition sourceText (segs : list RegExp.Segment) : jsstring :=
  concat (map RegExp.sourceOf segs).

(** [v] starts with [scheme], letter case ignored. *)
Definition StartsWithIgnoringCase (v scheme : jsstring) : Prop :=
  exists head tail, v = head ++ tail /\ JS.toLowerCase head = scheme.

(** A value the rewriter is to leave alone: an anchor, or an absolute
    [http] or [https] address. *)
Definition AnchorOrHttp (v : jsstring) : Prop :=
  (exists tail, v = chHash :: tail)
  \/ StartsWithIgnoringCase v (lit "http://")
  \/ StartsWithIgnoringCase v (lit "https://").

(** A decision of [HasAttribute], for use on given documents. *)
Fixpoint opensAttribute (s : jsstring) : bool :=
  match RegExp.opener s with
  | Some _ => true
  | None => match s with
            | [] => false
            | _ :: s' => opensAttribute s'
            end
  end.

(** A name of a file or directory: not empty, without a slash, and
    neither [.] nor [..]. *)
Definition ProperSegment (seg : jsstring) : Prop :=
  seg <> [] /\ ~ In chSlash seg /\ seg <> Path.dot /\ seg <> Path.dotdot.

(** The absolute path with the given segments: each preceded by a slash. *)
Definition absolutePath (segs : list jsstring) : jsstring :=
  concat (map (fun seg => chSlash :: seg) segs).

Definition nonEmpty (p : jsstring) : bool := negb (jsstring_eqb p []).

(** [p] is [name], or ends in a slash and [name]. *)
Definition EndsWithName (name p : jsstring) : Prop :=
  p = name \/ exists dir, p = dir ++ chSlash :: name.

(** The host with one path of its disk set to [entry]. *)
Definition withDiskEntry (h : Host) (path : jsstring) (entry : FsEntry) : Host :=
  {| settings := settings h;
     disk := fun p => if jsstring_eqb p path then entry else disk h p;
     dirname__ := dirname__ h;
     cwd := cwd h |}.

(** What the loader's promise is fulfilled with. *)
Definition loadedPage (h : Host) (htmlPath : jsstring) (fl : bool) (wv : Webview)
  : jsstring :=
  match disk h htmlPath with
  | NoEntry => showHelp (cannotReadDescription htmlPath) (errorLines (Fs.ENOENT htmlPath))
  | Unreadable err => showHelp (cannotReadDescription htmlPath) (errorLines err)
  | Readable data => if fl then fixLinks data htmlPath wv else data
  end.

(** A value that runs up to its closing quote: no quote and no line
    terminator in it. *)
Definition PlainValue (v : jsstring) : Prop :=
  Forall (fun c => c <> chQuote /\ c <> chDQuote /\ c <> chLF /\ c <> chCR) v.

(** What the pattern takes for an attribute: [src] or [href] in any
    letter case, an equals sign and a quote (group 1), a value without
    quote or line terminator (group 2), and a quote of either kind
    (group 3). *)
Definition AttributeText (m : RegExp.Match) : Prop :=
  exists name opening closing,
    RegExp.p1 m = name ++ [chEquals] ++ [opening]
    /\ (JS.toLowerCase name = lit "src" \/ JS.toLowerCase name = lit "href")
    /\ (opening = chQuote \/ opening = chDQuote)
    /\ PlainValue (RegExp.p2 m)
    /\ RegExp.p3 m = [closing]
    /\ (closing = chQuote \/ closing = chDQuote).

(** [k] times [..]. *)
Definition climb (k : nat) : list jsstring := repeat Path.dotdot k.


(** The arguments [compile] hands to the docutils renderer: the script,
    the file, the writer and the part of its output, each in double
    quotes. *)
Definition docutilsArgs (h : Host) (fileName : jsstring) (uri : Uri) : list jsstring :=
  [dq ++ Path.join [dirname__ h; lit ".."; lit ".."; lit "python-scripts"; lit "preview.py"] ++ dq;
   dq ++ fileName ++ dq;
   dq ++ Configuration.getDocutilsWriter (settings h) uri ++ dq;
   dq ++ Configuration.getDocutilsWriterPart (settings h) uri ++ dq].

(** Everything a request does except writing to the log. *)
Definition actions (tr : list Event) : list Event :=
  filter (fun e => match e with EvLog _ => false | _ => true end) tr.

(** How [preview] comes by the directory it hands to [compile]: none
    without a status bar, the configured one, or the one a refresh of
    the configuration brings. *)
Inductive DirectoryFor (this : RSTEngine) (doc : TextDocument) : jsstring -> Prop :=
| NoStatusBar :
    status this = None -> DirectoryFor this doc []
| Configured (st : RstTransformerStatus) (c : StatusConfig) :
    status this = Some st -> config st = Some c ->
    DirectoryFor this doc (confPyDirectory c)
| Refreshed (st : RstTransformerStatus) (c : StatusConfig) :
    status this = Some st -> config st = None ->
    refreshConfig st (uri doc) = Fulfilled (Some c) ->
    DirectoryFor this doc (confPyDirectory c).

(** A project in [/proj] that has been built: [docs/index.rst] has its
    page in [_build/html], with one image in it. *)
Module Built.

Definition page : jsstring :=
  lit "<h1>Index</h1><img src=" ++ dq ++ lit "logo.png" ++ dq ++ lit ">".

Definition host : Host :=
  {| settings := Sample.sphinxSettings;
     disk := fun p =>
       if jsstring_eqb p (lit "/proj/conf.py") then Readable []
       else if jsstring_eqb p (lit "/proj/_build/html/docs/index.html") then Readable page
       else NoEntry;
     dirname__ := lit "/ext/out/preview";
     cwd := lit "/" |}.

(** A status bar whose reset is rejected. *)
Definition stuckBar : RstTransformerStatus :=
  {| config := Some {| confPyDirectory := lit "/proj" |};
     refreshConfig := fun _ => Fulfilled (Some {| confPyDirectory := lit "/proj" |});
     reset := Rejected Sample.failing |}.

(** A status bar that has no configuration yet; [refreshed] is what a
    refresh settles with. *)
Definition freshBar (refreshed : Promise (option StatusConfig)) : RstTransformerStatus :=
  {| config := None;
     refreshConfig := fun _ => refreshed;
     reset := Fulfilled tt |}.

Definition document : TextDocument :=
  {| fileName := lit "/proj/docs/index.rst"; uri := Uri_file (lit "/proj/docs/index.rst") |}.

End Built.

(** ** The path functions on the examples of Node's documentation *)

Example path_documentation :
  Path.join [lit "/foo"; lit "bar"; lit "baz/asdf"; lit "quux"; lit ".."]
  = lit "/foo/bar/baz/asdf"
  /\ Path.normalize (lit "/foo/bar//baz/asdf/quux/..") = lit "/foo/bar/baz/asdf"
  /\ Path.dirname (lit "/foo/bar/baz/asdf/quux") = lit "/foo/bar/baz/asdf"
  /\ Path.basename (lit "/foo/bar/baz/asdf/quux.html") = lit "quux.html"
  /\ Path.relative (lit "/") (lit "/data/orandea/test/aaa") (lit "/data/orandea/impl/bbb")
     = lit "../../impl/bbb".
Proof. repeat split; reflexivity. Qed.

Example path_corner_cases :
  Path.join [[]; []] = lit "."
  /\ Path.normalize (lit "a/../../b/") = lit "../b/"
  /\ Path.dirname (lit "/a") = lit "/"
  /\ Path.dirname (lit ".html") = lit "."
  /\ Path.basename (lit "/a/b//") = lit "b"
  /\ Path.relative (lit "/work") (lit "/proj") (lit ".") = lit "../work"
  /\ JS.lastIndexOf (lit "/a.b/c.rst") chDot = 6%Z
  /\ JS.lastIndexOf (lit "/a/README") chDot = (-1)%Z
  /\ JS.substring (lit "/a/README") 0 (-1) = [].
Proof. repeat split; reflexivity. Qed.

(** ** Properties of the entry point *)

(** An [async] function never throws to its caller: what goes wrong
    inside is a rejection of its promise. *)
Lemma async_completes_normally {A} (body : Eff (AsyncReturn A)) :
  exists p, outcome (async body) = Normal p.
Proof.
  destruct body as [tr [[a | p] | t]]; cbn; eauto.
Qed.

(** X5: a rejected [refreshConfig], which [preview] awaits inside its
    [try], is turned into the error snippet. *)
Lemma preview_absorbs_refreshConfig (h : Host) (this : RSTEngine)
      (st : RstTransformerStatus) (doc : TextDocument) (wv : Webview) (t : Thrown) :
  status this = Some st ->
  config st = None ->
  refreshConfig st (uri doc) = Rejected t ->
  outcome (preview h this doc wv)
  = Normal (Fulfilled (errorSnippet (Thrown_toString t))).
Proof.
  intros Hst Hcfg Hrej. unfold preview. rewrite Hst, Hcfg, Hrej. reflexivity.
Qed.

(** C1, as the code has it: with no status bar the request goes to the
    docutils renderer, and when that invocation is rejected the promise
    [preview] returns is rejected with the same reason.  The promise of
    [compile] is returned from inside the [try] without being awaited, so
    the [catch] that builds the error snippet is not entered. *)
Theorem preview_renderer_rejection_escapes (h : Host) (this : RSTEngine)
        (doc : TextDocument) (wv : Webview) (t : Thrown) :
  status this = None ->
  (forall args, exec (python this) args = Rejected t) ->
  outcome (preview h this doc wv) = Normal (Rejected t)
  /\ outcome (preview h this doc wv)
     <> Normal (Fulfilled (errorSnippet (Thrown_toString t))).
Proof.
  intros Hst Hexec.
  assert (E : outcome (preview h this doc wv) = Normal (Rejected t)).
  { unfold preview, compile. rewrite Hst.
    replace (usesDocutils h []) with true by reflexivity.
    rewrite Hexec.
    destruct (jsstring_eqb (Configuration.getPreviewName (settings h)) (lit "docutils"));
      reflexivity. }
  split; [ exact E | rewrite E; discriminate ].
Qed.

Lemma preview_renderer_rejection_escapes_sample :
  outcome (preview Sample.host (Sample.engine None false false)
                   (Sample.document "/notes/todo.rst") Sample.webview)
  = Normal (Rejected Sample.failing)
  /\ outcome (preview Sample.host (Sample.engine None false false)
                      (Sample.document "/notes/todo.rst") Sample.webview)
     <> Normal (Fulfilled (errorSnippet (Thrown_toString Sample.failing))).
Proof.
  apply (preview_renderer_rejection_escapes Sample.host (Sample.engine None false false)
           (Sample.document "/notes/todo.rst") Sample.webview Sample.failing).
  - reflexivity.
  - intros args. reflexivity.
Defined.

(** ** The Sphinx branch of [compile] *)

Ltac run_eff :=
  cbn [bind ret emit throw log async await tryCatch events outcome fst snd
       app negb orb andb filter isFsAccess fsAccesses].

(** The loader reads the HTML file once and always fulfils its promise. *)
Lemma previewPage_fulfils (h : Host) (htmlPath input : jsstring) (fl : bool)
      (wv : Webview) :
  exists page, outcome (previewPage h htmlPath input fl wv) = Normal (Fulfilled page).
Proof.
  unfold previewPage, Fs.readFile.
  destruct (disk h htmlPath), fl; run_eff; eauto.
Qed.

Lemma previewPage_accesses (h : Host) (htmlPath input : jsstring) (fl : bool)
      (wv : Webview) :
  fsAccesses (events (previewPage h htmlPath input fl wv)) = [EvReadFile htmlPath].
Proof.
  unfold previewPage, Fs.readFile.
  destruct (disk h htmlPath), fl; reflexivity.
Qed.

Section SphinxRequest.

Variables (h : Host) (this : RSTEngine).
Variables (fileName : jsstring) (uri : Uri) (dir : jsstring).
Variables (fl : bool) (wv : Webview).

(** The request takes the Sphinx branch ... *)
Hypothesis Hmode : usesDocutils h dir = false.

(** ... and gets past the check of [conf.py]: the file is there, or the
    reset of the status bar that its absence sets off is fulfilled. *)
Hypothesis Hconf : confPyFound h dir || resetSettles this = true.

Let run : Eff (Promise jsstring) := compile h this fileName uri dir fl wv.

Let htmlPath : jsstring :=
  htmlPathOf h (fsPath uri) dir (buildDir (sphinxConfig (esbonio this))).

(** The three ways through the gate. *)
Ltac through_gate :=
  destruct (error (esbonio this)); [ reflexivity | ];
  destruct (ready (esbonio this)); try reflexivity.

(** What the gate decides. *)
Lemma compile_sphinx_outcome :
  outcome run
  = if error (esbonio this) then Normal (Fulfilled buildErrorPage)
    else if negb (ready (esbonio this)) then Normal (Fulfilled showWait)
    else outcome (previewPage h htmlPath dir fl wv).
Proof.
  destruct (previewPage_fulfils h htmlPath dir fl wv) as [page Hpage].
  rewrite Hpage. revert Hpage. generalize Hconf. subst run htmlPath.
  unfold compile, confPyFound, resetSettles, confFileOf, Fs.existsSync. rewrite Hmode.
  destruct (previewPage _ _ _ _ _) as [trp cp]. cbn [outcome snd]. intros Hc ->.
  revert Hc. destruct (disk h _); run_eff; intros Hc.
  - destruct (status this) as [st | ]; [ | discriminate ].
    destruct (reset st); [ | discriminate ]. run_eff. through_gate.
  - through_gate.
  - through_gate.
Qed.

(** The file system accesses of the request: the check of [conf.py], and
    the read of the HTML file when the gate lets the request on. *)
Lemma compile_sphinx_accesses :
  fsAccesses (events run)
  = EvExistsSync (confFileOf dir)
    :: (if error (esbonio this) then []
        else if negb (ready (esbonio this)) then []
        else [EvReadFile htmlPath]).
Proof.
  pose proof (previewPage_accesses h htmlPath dir fl wv) as Hacc.
  revert Hacc. generalize Hconf. subst run htmlPath.
  unfold compile, confPyFound, resetSettles, confFileOf, Fs.existsSync. rewrite Hmode.
  destruct (previewPage _ _ _ _ _) as [trp cp]. cbn [events fst].
  unfold fsAccesses. intros Hc Hacc.
  revert Hc. destruct (disk h _); run_eff; intros Hc.
  - destruct (status this) as [st | ]; [ | discriminate ].
    destruct (reset st); [ | discriminate ]. run_eff. through_gate.
    run_eff. destruct cp; run_eff; rewrite ?app_nil_r, Hacc; reflexivity.
  - through_gate.
    run_eff. destruct cp; run_eff; rewrite ?app_nil_r, Hacc; reflexivity.
  - through_gate.
    run_eff. destruct cp; run_eff; rewrite ?app_nil_r, Hacc; reflexivity.
Qed.

(** C5, amended: in a Sphinx request that has passed the check of
    [conf.py] (the file is there, or the reset of the status bar that its
    absence sets off is fulfilled), the gate has three outcomes and looks
    at [error] first.  With [error] set
    the result is the build-error page, whatever [ready] says, and the
    HTML file is not read; otherwise, with [ready] unset, the result is
    the wait page, again without a read; otherwise the request goes on to
    the computed HTML path, which is handed to the loader and read. *)
Theorem readiness_gate_three_outcomes :
  match error (esbonio this), ready (esbonio this) with
  | true, _ =>
      outcome run = Normal (Fulfilled buildErrorPage)
      /\ fsAccesses (events run) = [EvExistsSync (confFileOf dir)]
  | false, false =>
      outcome run = Normal (Fulfilled showWait)
      /\ fsAccesses (events run) = [EvExistsSync (confFileOf dir)]
  | false, true =>
      outcome run = outcome (previewPage h htmlPath dir fl wv)
      /\ fsAccesses (events run) = [EvExistsSync (confFileOf dir); EvReadFile htmlPath]
  end.
Proof.
  rewrite compile_sphinx_outcome, compile_sphinx_accesses.
  destruct (error (esbonio this)), (ready (esbonio this)); split; reflexivity.
Qed.

(** C2, amended: a request met by a backend that is neither ready nor
    failed gets the wait page, and its only file system access is the
    existence check of [conf.py] in the project directory; no file is
    read. *)
Theorem wait_page_reads_no_file :
  error (esbonio this) = false ->
  ready (esbonio this) = false ->
  outcome run = Normal (Fulfilled showWait)
  /\ fsAccesses (events run) = [EvExistsSync (Path.join [dir; lit "conf.py"])].
Proof.
  intros Herr Hready.
  rewrite compile_sphinx_outcome, compile_sphinx_accesses, Herr, Hready.
  split; reflexivity.
Qed.

End SphinxRequest.

Lemma readiness_gate_three_outcomes_sample :
  outcome (compile Sample.host (Sample.engine (Some Sample.statusBar) true true)
                   (lit "/proj/docs/index.rst") (Uri_file (lit "/proj/docs/index.rst"))
                   (lit "/proj") true Sample.webview)
  = Normal (Fulfilled buildErrorPage)
  /\ fsAccesses (events (compile Sample.host (Sample.engine (Some Sample.statusBar) true true)
                   (lit "/proj/docs/index.rst") (Uri_file (lit "/proj/docs/index.rst"))
                   (lit "/proj") true Sample.webview))
     = [EvExistsSync (confFileOf (lit "/proj"))].
Proof.
  apply (readiness_gate_three_outcomes Sample.host
           (Sample.engine (Some Sample.statusBar) true true)
           (lit "/proj/docs/index.rst") (Uri_file (lit "/proj/docs/index.rst"))
           (lit "/proj") true Sample.webview).
  - reflexivity.
  - reflexivity.
Defined.

(** C5, as stated, fails for a request that does not reach the gate:
    with [error] set, [conf.py] missing and the awaited reset of the
    status bar rejected, the promise of [compile] is rejected with the
    reason of the reset; the build-error page is not returned. *)
Lemma failed_build_request_is_rejected :
  let bar := {| config := Some {| confPyDirectory := lit "/proj" |};
                refreshConfig := fun _ => Fulfilled None;
                reset := Rejected Sample.failing |} in
  let host := withDiskEntry Sample.host (confFileOf (lit "/proj")) NoEntry in
  let this := Sample.engine (Some bar) true true in
  let run := compile host this
                     (lit "/proj/docs/index.rst") (Uri_file (lit "/proj/docs/index.rst"))
                     (lit "/proj") true Sample.webview in
  usesDocutils host (lit "/proj") = false
  /\ error (esbonio this) = true
  /\ outcome run = Normal (Rejected Sample.failing)
  /\ outcome run <> Normal (Fulfilled buildErrorPage).
Proof.
  vm_compute. repeat split. discriminate.
Qed.

(** C2, as stated, fails: a Sphinx request met by a backend that is
    neither ready nor failed gets the wait page, but the request has by
    then asked the file system whether [conf.py] exists. *)
Lemma wait_request_checks_conf_py :
  let run := compile Sample.host (Sample.engine (Some Sample.statusBar) false false)
                     (lit "/proj/docs/index.rst") (Uri_file (lit "/proj/docs/index.rst"))
                     (lit "/proj") true Sample.webview in
  outcome run = Normal (Fulfilled showWait)
  /\ fsAccesses (events run) = [EvExistsSync (lit "/proj/conf.py")]
  /\ ~ (fsAccesses (events run) = []).
Proof.
  vm_compute. repeat split. discriminate.
Qed.

Lemma wait_page_reads_no_file_sample :
  outcome (compile Sample.host (Sample.engine (Some Sample.statusBar) false false)
                   (lit "/proj/a.rst") (Uri_file (lit "/proj/a.rst"))
                   (lit "/proj") true Sample.webview)
  = Normal (Fulfilled showWait)
  /\ fsAccesses (events (compile Sample.host (Sample.engine (Some Sample.statusBar) false false)
                   (lit "/proj/a.rst") (Uri_file (lit "/proj/a.rst"))
                   (lit "/proj") true Sample.webview))
     = [EvExistsSync (Path.join [lit "/proj"; lit "conf.py"])].
Proof.
  apply (wait_page_reads_no_file Sample.host
           (Sample.engine (Some Sample.statusBar) false false)
           (lit "/proj/a.rst") (Uri_file (lit "/proj/a.rst"))
           (lit "/proj") true Sample.webview); reflexivity.
Defined.

(** ** The document loader *)

Lemma startsWith_prefix (s prefix : jsstring) :
  JS.startsWith s prefix = true -> exists rest, s = prefix ++ rest.
Proof.
  revert s. induction prefix as [ | p prefix IH]; intros s H.
  - exists s. reflexivity.
  - destruct s as [ | c s]; [ discriminate | ].
    cbn in H. apply andb_prop in H as [Hc Hs].
    apply Ascii.eqb_eq in Hc. subst c.
    destruct (IH s Hs) as [rest ->]. exists rest. reflexivity.
Qed.

Lemma startsWith_app (prefix rest : jsstring) :
  JS.startsWith (prefix ++ rest) prefix = true.
Proof.
  induction prefix as [ | p prefix IH]; [ reflexivity | ].
  cbn. rewrite Ascii.eqb_refl. exact IH.
Qed.

Lemma includes_Contains (hay needle : jsstring) :
  includes hay needle = true -> Contains needle hay.
Proof.
  induction hay as [ | c hay IH]; cbn [includes]; intros H.
  - rewrite orb_false_r in H. apply startsWith_prefix in H as [rest E].
    exists [], rest. exact E.
  - apply orb_prop in H as [H | H].
    + apply startsWith_prefix in H as [rest E]. exists [], rest. exact E.
    + destruct (IH H) as (before & after & ->).
      exists (c :: before), after. reflexivity.
Qed.

Lemma Contains_includes (hay needle : jsstring) :
  Contains needle hay -> includes hay needle = true.
Proof.
  intros (before & after & ->). induction before as [ | c before IH].
  - cbn [app]. destruct (needle ++ after) as [ | c s] eqn:E; cbn [includes];
      rewrite <- E, startsWith_app; reflexivity.
  - cbn [app includes]. rewrite IH. apply orb_true_r.
Qed.

Lemma Contains_here (needle after : jsstring) : Contains needle (needle ++ after).
Proof. exists [], after. reflexivity. Qed.

Lemma Contains_app_r (needle a b : jsstring) : Contains needle b -> Contains needle (a ++ b).
Proof.
  intros (before & after & ->). exists (a ++ before), after.
  now rewrite <- app_assoc.
Qed.

Create HintDb contains.
#[local] Hint Resolve Contains_here Contains_app_r : contains.

Lemma showHelp_contains_description (description error : jsstring) :
  Contains description (showHelp description error).
Proof. unfold showHelp. auto 12 with contains. Qed.

Lemma showHelp_contains_error (description error : jsstring) :
  Contains error (showHelp description error).
Proof. unfold showHelp. auto 12 with contains. Qed.

Lemma Contains_trans (a b c : jsstring) : Contains a b -> Contains b c -> Contains a c.
Proof.
  intros (x & y & ->) (x' & y' & ->). exists (x' ++ x), (y ++ y').
  now rewrite <- !app_assoc.
Qed.

(** C4, as stated, fails on the number of causes: the page for an HTML
    file that cannot be read holds a list of two entries, not three. *)
Lemma cannot_read_page_has_two_causes :
  let page := showHelp (cannotReadDescription (lit "/proj/_build/html/index.html"))
                       (errorLines (Fs.ENOENT (lit "/proj/_build/html/index.html"))) in
  outcome (previewPage Sample.host (lit "/proj/_build/html/index.html") (lit "/proj")
                       true Sample.webview)
  = Normal (Fulfilled page)
  /\ countOccurrences (lit "<li>") page = 2
  /\ countOccurrences (lit "<li>") page <> 3.
Proof.
  vm_compute. repeat split. discriminate.
Qed.

(** C4, amended: when the read of the HTML file fails with [err], the
    loader does not throw and does not reject: its promise is fulfilled
    with a page that holds the path that could not be read, the two
    causes (a wrong [conf.py] selected, a wrong value of
    [esbonio.sphinx.buildDir]) and the name, the message and the stack of
    [err] joined by newlines. *)
Theorem previewPage_read_failure (h : Host) (htmlPath input : jsstring) (fl : bool)
        (wv : Webview) (err : JsError) :
  outcome (Fs.readFile h htmlPath) = Normal (inl err) ->
  exists page,
    outcome (previewPage h htmlPath input fl wv) = Normal (Fulfilled page)
    /\ Contains htmlPath page
    /\ Contains causeWrongConfPy page
    /\ Contains causeWrongBuildDir page
    /\ Contains (errName err ++ [chLF] ++ errMessage err ++ [chLF] ++ stackText err) page.
Proof.
  intros Hread.
  exists (showHelp (cannotReadDescription htmlPath) (errorLines err)).
  split.
  - unfold previewPage. revert Hread. unfold Fs.readFile.
    destruct (disk h htmlPath); run_eff; intros [= <-] || discriminate; reflexivity.
  - repeat split.
    + apply Contains_trans with (cannotReadDescription htmlPath);
        [ | apply showHelp_contains_description ].
      unfold cannotReadDescription. auto with contains.
    + apply Contains_trans with (cannotReadDescription htmlPath);
        [ | apply showHelp_contains_description ].
      unfold cannotReadDescription. do 4 apply Contains_app_r.
      apply includes_Contains. vm_compute. reflexivity.
    + apply Contains_trans with (cannotReadDescription htmlPath);
        [ | apply showHelp_contains_description ].
      unfold cannotReadDescription. do 4 apply Contains_app_r.
      apply includes_Contains. vm_compute. reflexivity.
    + apply Contains_trans with (errorLines err);
        [ | apply showHelp_contains_error ].
      exists [], []. unfold errorLines, stackText. cbn [JS.join app].
      now rewrite app_nil_r.
Qed.

Lemma previewPage_read_failure_sample :
  exists page,
    outcome (previewPage Sample.host (lit "/proj/_build/html/index.html") (lit "/proj")
                         true Sample.webview) = Normal (Fulfilled page)
    /\ Contains (lit "/proj/_build/html/index.html") page
    /\ Contains causeWrongConfPy page
    /\ Contains causeWrongBuildDir page
    /\ Contains (errName (Fs.ENOENT (lit "/proj/_build/html/index.html")) ++ [chLF]
                 ++ errMessage (Fs.ENOENT (lit "/proj/_build/html/index.html")) ++ [chLF]
                 ++ stackText (Fs.ENOENT (lit "/proj/_build/html/index.html"))) page.
Proof.
  apply (previewPage_read_failure Sample.host (lit "/proj/_build/html/index.html")
           (lit "/proj") true Sample.webview
           (Fs.ENOENT (lit "/proj/_build/html/index.html"))).
  reflexivity.
Defined.

(** ** The global scan of [fixLinks] *)

Lemma allUnits_complete (c : ascii) : In c allUnits.
Proof.
  rewrite <- (ascii_nat_embedding c). unfold allUnits.
  apply in_map, in_seq. pose proof (nat_ascii_bounded c). lia.
Qed.

Lemma forall_units (P : ascii -> bool) :
  forallb P allUnits = true -> forall c, P c = true.
Proof.
  intros H c. rewrite forallb_forall in H. apply H, allUnits_complete.
Qed.

(** A character that equals, letter case ignored, a pattern character
    written in lower case has that character as its lower case. *)
Lemma eqIgnoreCase_lowerUnit (c p : ascii) :
  RegExp.eqIgnoreCase c p = true -> JS.lowerUnit p = p -> JS.lowerUnit c = p.
Proof.
  intros H Hp.
  pose (check := fun c p : ascii =>
          implb (RegExp.eqIgnoreCase c p)
                (implb (Ascii.eqb (JS.lowerUnit p) p) (Ascii.eqb (JS.lowerUnit c) p))).
  assert (T : forallb (fun c => forallb (check c) allUnits) allUnits = true)
    by (vm_compute; reflexivity).
  pose proof (forall_units _ (forall_units _ T c) p) as G.
  unfold check in G. rewrite H in G. cbn [implb] in G.
  apply Ascii.eqb_eq in Hp. rewrite Hp in G. cbn [implb] in G.
  now apply Ascii.eqb_eq.
Qed.

(** What [literal] matched, in order, is the pattern up to letter case. *)
Lemma literal_sound (pat s m rest : jsstring) :
  RegExp.literal pat s = Some (m, rest) ->
  s = m ++ rest /\ Forall2 (fun c p => RegExp.eqIgnoreCase c p = true) m pat.
Proof.
  revert s m rest. induction pat as [ | p pat IH]; intros s m rest H.
  - cbn in H. injection H as <- <-. split; [ reflexivity | constructor ].
  - destruct s as [ | c s]; [ discriminate | ]. cbn in H.
    destruct (RegExp.eqIgnoreCase c p) eqn:Hc; [ | discriminate ].
    destruct (RegExp.literal pat s) as [[m' rest'] | ] eqn:Hl; [ | discriminate ].
    injection H as <- <-. destruct (IH _ _ _ Hl) as [-> HF].
    split; [ reflexivity | now constructor ].
Qed.

Lemma Forall2_lower (m pat : jsstring) :
  Forall2 (fun c p => RegExp.eqIgnoreCase c p = true) m pat ->
  JS.toLowerCase pat = pat ->
  JS.toLowerCase m = pat.
Proof.
  induction 1 as [ | c p m pat Hc HF IH]; [ reflexivity | ].
  cbn [JS.toLowerCase map]. intros [= Hp Hpat].
  f_equal; [ now apply eqIgnoreCase_lowerUnit | now apply IH ].
Qed.

Lemma toLowerCase_app (a b : jsstring) :
  JS.toLowerCase (a ++ b) = JS.toLowerCase a ++ JS.toLowerCase b.
Proof. apply map_app. Qed.

Lemma isQuote_true (c : ascii) :
  RegExp.isQuote c = true -> c = chQuote \/ c = chDQuote.
Proof.
  unfold RegExp.isQuote. intros H. apply orb_prop in H as [H | H];
    apply Ascii.eqb_eq in H; auto.
Qed.

Lemma literal_name (name : string) (s m rest : jsstring) :
  RegExp.literal (lit name ++ [chEquals]) s = Some (m, rest) ->
  JS.toLowerCase (lit name ++ [chEquals]) = lit name ++ [chEquals] ->
  exists nm, m = nm ++ [chEquals] /\ JS.toLowerCase nm = lit name /\ s = m ++ rest.
Proof.
  intros H Hlow. apply literal_sound in H as [-> HF].
  pose proof (Forall2_lower _ _ HF Hlow) as Hm.
  apply Forall2_app_inv_r in HF as (nm & e & Hnm & He & ->).
  inversion He as [ | c p l l' Hc Hl]; subst. inversion Hl; subst.
  rewrite toLowerCase_app in Hm. apply app_inj_tail in Hm as [Hm Hc'].
  exists nm. repeat split; [ | exact Hm ].
  f_equal. f_equal.
  assert (E : JS.lowerUnit chEquals = chEquals) by reflexivity.
  pose proof (eqIgnoreCase_lowerUnit c chEquals Hc E) as Hlc.
  revert Hc. clear - c.
  pose (check := fun c : ascii => implb (RegExp.eqIgnoreCase c chEquals) (Ascii.eqb c chEquals)).
  assert (T : forallb check allUnits = true) by (vm_compute; reflexivity).
  pose proof (forall_units _ T c) as G. unfold check in G.
  intros Hc. rewrite Hc in G. now apply Ascii.eqb_eq.
Qed.

(** Where group 1 matches, an attribute opens. *)
Lemma opener_sound (s g1 rest : jsstring) :
  RegExp.opener s = Some (g1, rest) ->
  s = g1 ++ rest
  /\ exists name quote,
       g1 = name ++ [chEquals] ++ [quote]
       /\ (JS.toLowerCase name = lit "src" \/ JS.toLowerCase name = lit "href")
       /\ (quote = chQuote \/ quote = chDQuote).
Proof.
  unfold RegExp.opener. intros H.
  destruct (RegExp.literal (lit "src=") s) as [[m r] | ] eqn:Hsrc.
  - destruct r as [ | c r]; [ discriminate | ].
    destruct (RegExp.isQuote c) eqn:Hq; [ | discriminate ].
    injection H as <- <-.
    apply (literal_name "src") in Hsrc as (nm & -> & Hnm & ->); [ | reflexivity ].
    split; [ now rewrite <- !app_assoc | ].
    exists nm, c. rewrite <- app_assoc. auto using isQuote_true.
  - destruct (RegExp.literal (lit "href=") s) as [[m r] | ] eqn:Hhref; [ | discriminate ].
    destruct r as [ | c r]; [ discriminate | ].
    destruct (RegExp.isQuote c) eqn:Hq; [ | discriminate ].
    injection H as <- <-.
    apply (literal_name "href") in Hhref as (nm & -> & Hnm & ->); [ | reflexivity ].
    split; [ now rewrite <- !app_assoc | ].
    exists nm, c. rewrite <- app_assoc. auto using isQuote_true.
Qed.

Lemma value_sound (s v q rest : jsstring) :
  RegExp.value s = Some (v, q, rest) -> s = v ++ q ++ rest /\ length q = 1.
Proof.
  revert v q rest. induction s as [ | c s IH]; intros v q rest H; [ discriminate | ].
  cbn in H. destruct (RegExp.isQuote c).
  - injection H as <- <- <-. split; reflexivity.
  - destruct (RegExp.isLineTerminator c); [ discriminate | ].
    destruct (RegExp.value s) as [[[v' q'] rest'] | ]; [ | discriminate ].
    injection H as <- <- <-. destruct (IH _ _ _ eq_refl) as [-> Hq].
    split; [ reflexivity | exact Hq ].
Qed.

(** A match is a prefix of the text it was found in, and is not empty. *)
Lemma execAt_sound (s : jsstring) (m : RegExp.Match) (rest : jsstring) :
  RegExp.execAt s = Some (m, rest) ->
  s = RegExp.subString m ++ rest /\ length rest < length s.
Proof.
  unfold RegExp.execAt. intros H.
  destruct (RegExp.opener s) as [[g1 s1] | ] eqn:Ho; [ | discriminate ].
  destruct (RegExp.value s1) as [[[g2 g3] r] | ] eqn:Hv; [ | discriminate ].
  injection H as <- <-.
  apply opener_sound in Ho as [-> _]. apply value_sound in Hv as [-> Hq].
  unfold RegExp.subString. cbn [RegExp.p1 RegExp.p2 RegExp.p3].
  split; [ now rewrite <- !app_assoc | ].
  rewrite !length_app. lia.
Qed.

(** The scan runs to the end of its subject: its segments, put back
    together, are the subject. *)
Lemma scanFrom_sourceText (fuel : nat) (s : jsstring) :
  length s <= fuel -> sourceText (RegExp.scanFrom fuel s) = s.
Proof.
  revert s. induction fuel as [ | fuel IH]; intros s Hlen.
  - destruct s; [ reflexivity | cbn in Hlen; lia ].
  - destruct s as [ | c s]; [ reflexivity | ].
    cbn [RegExp.scanFrom].
    destruct (RegExp.execAt (c :: s)) as [[m rest] | ] eqn:He.
    + apply execAt_sound in He as [E Hrest].
      unfold sourceText. cbn [map concat RegExp.sourceOf].
      fold (sourceText (RegExp.scanFrom fuel rest)).
      rewrite IH; [ now rewrite <- E | cbn [length] in Hlen, Hrest; lia ].
    + unfold sourceText. cbn [map concat RegExp.sourceOf].
      fold (sourceText (RegExp.scanFrom fuel s)).
      rewrite IH; [ reflexivity | cbn in Hlen; lia ].
Qed.

Lemma scan_sourceText (s : jsstring) : sourceText (RegExp.scan s) = s.
Proof. apply scanFrom_sourceText. reflexivity. Qed.

(** The scan does not depend on fuel beyond the length of its subject. *)
Lemma scanFrom_enough (fuel fuel' : nat) (s : jsstring) :
  length s <= fuel -> length s <= fuel' ->
  RegExp.scanFrom fuel s = RegExp.scanFrom fuel' s.
Proof.
  revert fuel' s. induction fuel as [ | fuel IH]; intros fuel' s H H'.
  - destruct s; [ | cbn in H; lia ]. destruct fuel'; reflexivity.
  - destruct s as [ | c s]; [ destruct fuel'; reflexivity | ].
    destruct fuel' as [ | fuel']; [ cbn in H'; lia | ].
    cbn [RegExp.scanFrom].
    destruct (RegExp.execAt (c :: s)) as [[m rest] | ] eqn:He.
    + apply execAt_sound in He as [_ Hlen]. cbn [length] in *.
      f_equal. apply IH; lia.
    + cbn [length] in *. f_equal. apply IH; lia.
Qed.

Lemma scan_match (s : jsstring) (m : RegExp.Match) (rest : jsstring) :
  RegExp.execAt s = Some (m, rest) ->
  RegExp.scan s = RegExp.Matched m :: RegExp.scan rest.
Proof.
  intros He. pose proof (execAt_sound s m rest He) as [_ Hlen].
  unfold RegExp.scan. destruct s as [ | c s]; [ cbn in Hlen; lia | ].
  cbn [length RegExp.scanFrom]. rewrite He. f_equal.
  apply scanFrom_enough; cbn [length] in Hlen; lia.
Qed.

Lemma scan_verbatim (c : ascii) (s : jsstring) :
  RegExp.execAt (c :: s) = None ->
  RegExp.scan (c :: s) = RegExp.Verbatim c :: RegExp.scan s.
Proof.
  intros He. unfold RegExp.scan. cbn [length RegExp.scanFrom]. now rewrite He.
Qed.

(** *** What the pattern matches *)

Lemma lowerUnit_eqIgnoreCase (c p : ascii) :
  JS.lowerUnit c = p -> (nat_of_ascii p <? 128) = true ->
  RegExp.eqIgnoreCase c p = true.
Proof.
  intros Hc Hp.
  pose (check := fun c p : ascii =>
          implb (Ascii.eqb (JS.lowerUnit c) p)
                (implb (nat_of_ascii p <? 128) (RegExp.eqIgnoreCase c p))).
  assert (T : forallb (fun c => forallb (check c) allUnits) allUnits = true)
    by (vm_compute; reflexivity).
  pose proof (forall_units _ (forall_units _ T c) p) as G. unfold check in G.
  apply Ascii.eqb_eq in Hc. now rewrite Hc, Hp in G.
Qed.

Lemma isQuote_of (q : ascii) : q = chQuote \/ q = chDQuote -> RegExp.isQuote q = true.
Proof. intros [-> | ->]; reflexivity. Qed.

(** Group 1 matches an attribute name in any letter case, the equals
    sign and a quote, and nothing more. *)
Lemma opener_exact (name : jsstring) (quote : ascii) (after : jsstring) :
  JS.toLowerCase name = lit "src" \/ JS.toLowerCase name = lit "href" ->
  quote = chQuote \/ quote = chDQuote ->
  RegExp.opener (name ++ [chEquals] ++ [quote] ++ after)
  = Some (name ++ [chEquals] ++ [quote], after).
Proof.
  intros Hname Hquote. pose proof (isQuote_of quote Hquote) as Hq.
  unfold RegExp.opener. destruct Hname as [Hname | Hname].
  - destruct name as [ | a [ | b [ | c [ | ? ?]]]]; try discriminate Hname.
    injection Hname as Ha Hb Hc.
    cbn [app RegExp.literal lit list_ascii_of_string].
    rewrite (lowerUnit_eqIgnoreCase a _ Ha eq_refl), (lowerUnit_eqIgnoreCase b _ Hb eq_refl),
      (lowerUnit_eqIgnoreCase c _ Hc eq_refl).
    replace (RegExp.eqIgnoreCase chEquals "=") with true by reflexivity.
    cbn -[RegExp.isQuote]. now rewrite Hq.
  - destruct name as [ | a [ | b [ | c [ | d [ | ? ?]]]]]; try discriminate Hname.
    injection Hname as Ha Hb Hc Hd.
    cbn [app RegExp.literal lit list_ascii_of_string].
    assert (Hs : RegExp.eqIgnoreCase a "s" = false).
    { pose (check := fun c : ascii =>
              implb (Ascii.eqb (JS.lowerUnit c) "h") (negb (RegExp.eqIgnoreCase c "s"))).
      assert (T : forallb check allUnits = true) by (vm_compute; reflexivity).
      pose proof (forall_units _ T a) as G. unfold check in G.
      apply Ascii.eqb_eq in Ha. rewrite Ha in G. cbn in G.
      now apply negb_true_iff. }
    rewrite Hs.
    rewrite (lowerUnit_eqIgnoreCase a _ Ha eq_refl), (lowerUnit_eqIgnoreCase b _ Hb eq_refl),
      (lowerUnit_eqIgnoreCase c _ Hc eq_refl), (lowerUnit_eqIgnoreCase d _ Hd eq_refl).
    replace (RegExp.eqIgnoreCase chEquals "=") with true by reflexivity.
    cbn -[RegExp.isQuote]. now rewrite Hq.
Qed.

Lemma plain_char (c : ascii) :
  c <> chQuote /\ c <> chDQuote /\ c <> chLF /\ c <> chCR ->
  RegExp.isQuote c = false /\ RegExp.isLineTerminator c = false.
Proof.
  intros (H1 & H2 & H3 & H4). unfold RegExp.isQuote, RegExp.isLineTerminator.
  rewrite !orb_false_iff. repeat split; apply Ascii.eqb_neq; assumption.
Qed.

(** Groups 2 and 3 take a plain value and the quote behind it, of
    either kind. *)
Lemma value_exact (v : jsstring) (quote : ascii) (after : jsstring) :
  PlainValue v -> quote = chQuote \/ quote = chDQuote ->
  RegExp.value (v ++ quote :: after) = Some (v, [quote], after).
Proof.
  intros Hv Hquote. pose proof (isQuote_of quote Hquote) as Hq.
  induction Hv as [ | c v Hc Hv IH]; cbn [app RegExp.value].
  - now rewrite Hq.
  - destruct (plain_char c Hc) as [-> ->]. now rewrite IH.
Qed.

(** *** The scan before and behind a match *)

Lemma value_plain (s v q rest : jsstring) :
  RegExp.value s = Some (v, q, rest) ->
  PlainValue v /\ exists closing, q = [closing] /\ (closing = chQuote \/ closing = chDQuote).
Proof.
  revert v q rest. induction s as [ | c s IH]; intros v q rest H; [ discriminate | ].
  cbn in H. destruct (RegExp.isQuote c) eqn:Hq.
  - injection H as <- <- <-. split; [ constructor | ].
    exists c. split; [ reflexivity | now apply isQuote_true ].
  - destruct (RegExp.isLineTerminator c) eqn:Hl; [ discriminate | ].
    destruct (RegExp.value s) as [[[v' q'] rest'] | ]; [ | discriminate ].
    injection H as <- <- <-. destruct (IH _ _ _ eq_refl) as [Hv Hc].
    split; [ | exact Hc ]. constructor; [ | exact Hv ].
    unfold RegExp.isQuote in Hq. unfold RegExp.isLineTerminator in Hl.
    apply orb_false_elim in Hq as [H1 H2]. apply orb_false_elim in Hl as [H3 H4].
    repeat split; intros ->; [ rewrite Ascii.eqb_refl in H1 | rewrite Ascii.eqb_refl in H2
                             | rewrite Ascii.eqb_refl in H3 | rewrite Ascii.eqb_refl in H4 ];
      discriminate.
Qed.

Lemma execAt_attribute (s : jsstring) (m : RegExp.Match) (rest : jsstring) :
  RegExp.execAt s = Some (m, rest) -> AttributeText m.
Proof.
  unfold RegExp.execAt. intros H.
  destruct (RegExp.opener s) as [[g1 s1] | ] eqn:Ho; [ | discriminate ].
  destruct (RegExp.value s1) as [[[g2 g3] r] | ] eqn:Hv; [ | discriminate ].
  injection H as <- <-.
  apply opener_sound in Ho as [_ (name & quote & -> & Hname & Hquote)].
  apply value_plain in Hv as [Hv (closing & -> & Hclosing)].
  exists name, quote, closing. cbn [RegExp.p1 RegExp.p2 RegExp.p3]. auto 10.
Qed.

Lemma execAt_exact (m : RegExp.Match) (x : jsstring) :
  AttributeText m -> RegExp.execAt (RegExp.subString m ++ x) = Some (m, x).
Proof.
  destruct m as [g1 g2 g3].
  intros (name & opening & closing & E1 & Hname & Hopen & Hv & E3 & Hclose).
  cbn [RegExp.p1 RegExp.p2 RegExp.p3] in *. subst g1 g3.
  unfold RegExp.subString, RegExp.execAt. cbn [RegExp.p1 RegExp.p2 RegExp.p3].
  rewrite <- !app_assoc.
  rewrite (opener_exact name opening _ Hname Hopen).
  cbn [app]. now rewrite (value_exact g2 closing x Hv Hclose).
Qed.

Lemma execAt_longer (a b : jsstring) (m : RegExp.Match) (rest : jsstring) :
  RegExp.execAt a = Some (m, rest) -> RegExp.execAt (a ++ b) = Some (m, rest ++ b).
Proof.
  intros He. pose proof (execAt_attribute a m rest He) as Hm.
  apply execAt_sound in He as [-> _]. rewrite <- app_assoc.
  now apply execAt_exact.
Qed.

Lemma sourceText_app (a b : list RegExp.Segment) :
  sourceText (a ++ b) = sourceText a ++ sourceText b.
Proof. unfold sourceText. now rewrite map_app, concat_app. Qed.

Lemma scanFrom_split (before after : list RegExp.Segment) :
  forall (fuel : nat) (s : jsstring),
    length s <= fuel ->
    RegExp.scanFrom fuel s = before ++ after ->
    RegExp.scan (sourceText before) = before /\ RegExp.scan (sourceText after) = after.
Proof.
  induction before as [ | seg before IH]; intros fuel s Hlen Hscan.
  - split; [ reflexivity | ]. cbn [app] in Hscan.
    pose proof (scanFrom_sourceText fuel s Hlen) as Hs. rewrite Hscan in Hs. rewrite Hs.
    rewrite <- Hscan. unfold RegExp.scan. apply scanFrom_enough; [ reflexivity | exact Hlen ].
  - destruct fuel as [ | fuel]; [ destruct s; discriminate Hscan | ].
    destruct s as [ | c s]; [ discriminate Hscan | ].
    cbn [RegExp.scanFrom app] in Hscan.
    destruct (RegExp.execAt (c :: s)) as [[m rest] | ] eqn:He.
    + injection Hscan as <- Hscan.
      pose proof (execAt_sound _ _ _ He) as [_ Hrest]. cbn [length] in Hlen, Hrest.
      destruct (IH fuel rest ltac:(lia) Hscan) as [Hb Ha].
      split; [ | exact Ha ].
      change (sourceText (RegExp.Matched m :: before))
        with (RegExp.subString m ++ sourceText before).
      rewrite (scan_match _ m (sourceText before)
                 (execAt_exact m _ (execAt_attribute _ _ _ He))).
      now rewrite Hb.
    + injection Hscan as <- Hscan. cbn [length] in Hlen.
      destruct (IH fuel s ltac:(lia) Hscan) as [Hb Ha].
      split; [ | exact Ha ].
      change (sourceText (RegExp.Verbatim c :: before)) with (c :: sourceText before).
      rewrite scan_verbatim; [ now rewrite Hb | ].
      destruct (RegExp.execAt (c :: sourceText before)) as [[m rest] | ] eqn:He'; [ | reflexivity ].
      apply (execAt_longer _ (sourceText after)) in He'.
      pose proof (scanFrom_sourceText fuel s ltac:(lia)) as Hs.
      rewrite Hscan, sourceText_app in Hs.
      cbn [app] in He'. rewrite Hs in He'. congruence.
Qed.

(** ** The link rewriter *)

Lemma startsWith_lower (v scheme : jsstring) :
  JS.startsWith (JS.toLowerCase v) scheme = true <-> StartsWithIgnoringCase v scheme.
Proof.
  split.
  - intros H. apply startsWith_prefix in H as [rest E].
    exists (firstn (length scheme) v), (skipn (length scheme) v). split.
    + symmetry. apply firstn_skipn.
    + unfold JS.toLowerCase in *. rewrite <- firstn_map, E.
      rewrite firstn_app, Nat.sub_diag, firstn_all. cbn. apply app_nil_r.
  - intros (head & tail & -> & <-). rewrite toLowerCase_app. apply startsWith_app.
Qed.

Lemma isAnchorOrHttp_spec (v : jsstring) :
  isAnchorOrHttp v = true <-> AnchorOrHttp v.
Proof.
  unfold isAnchorOrHttp, AnchorOrHttp.
  rewrite !orb_true_iff, !startsWith_lower.
  assert (Hhash : JS.startsWith v (lit "#") = true <-> exists tail, v = chHash :: tail).
  { split.
    - intros H. apply startsWith_prefix in H as [rest ->]. now exists rest.
    - intros [tail ->]. apply (startsWith_app (lit "#")). }
  rewrite Hhash. tauto.
Qed.

(** The output of [fixLinks] around one match of the scan: the match is
    an attribute text, the document is the text before it, the match and
    the text after it, and the output is the rewriting of the text
    before, what the callback returns for the match, and the rewriting
    of the text after. *)
Lemma fixLinks_around (document documentPath : jsstring) (wv : Webview)
      (before after : list RegExp.Segment) (m : RegExp.Match) :
  RegExp.scan document = before ++ RegExp.Matched m :: after ->
  AttributeText m
  /\ document = sourceText before ++ RegExp.subString m ++ sourceText after
  /\ fixLinks document documentPath wv
     = fixLinks (sourceText before) documentPath wv
       ++ fixLink documentPath wv (RegExp.subString m) (RegExp.p1 m)
                  (RegExp.p2 m) (RegExp.p3 m)
       ++ fixLinks (sourceText after) documentPath wv.
Proof.
  intros Hscan.
  destruct (scanFrom_split before (RegExp.Matched m :: after) (length document) document
              (le_n _) Hscan) as [Hb Ha].
  assert (Hm : AttributeText m).
  { destruct (RegExp.execAt (sourceText (RegExp.Matched m :: after))) as [[m' rest] | ] eqn:He.
    - pose proof (execAt_attribute _ _ _ He) as Hm'.
      rewrite (scan_match _ _ _ He) in Ha. now injection Ha as <- _.
    - change (sourceText (RegExp.Matched m :: after))
        with (RegExp.subString m ++ sourceText after) in *.
      destruct (RegExp.subString m ++ sourceText after) as [ | c s] eqn:E.
      + discriminate Ha.
      + rewrite (scan_verbatim c s He) in Ha. discriminate Ha. }
  split; [ exact Hm | ].
  split.
  - rewrite <- (scan_sourceText document) at 1. rewrite Hscan. apply sourceText_app.
  - assert (Hafter : RegExp.scan (sourceText after) = after).
    { change (sourceText (RegExp.Matched m :: after))
        with (RegExp.subString m ++ sourceText after) in Ha.
      rewrite (scan_match _ m (sourceText after) (execAt_exact m _ Hm)) in Ha.
      now injection Ha. }
    unfold fixLinks, RegExp.replace. rewrite Hscan, Hb, Hafter.
    now rewrite map_app, concat_app.
Qed.

(** C7, as stated, fails for an attribute that the scan does not stand
    at.  In this document the first [href=] and its quote open a match
    whose value runs up to the opening quote of the link to [#top]; that
    match is rewritten, the scan goes on behind the quote, and the
    attribute with the anchor, which the document holds, is not in the
    output. *)
Lemma fixLinks_overruns_anchor :
  let occurrence := lit "href=" ++ dq ++ lit "#top" ++ dq in
  let document := lit "<p>Is it href=" ++ dq ++ lit "?</p><a " ++ occurrence ++ lit ">up</a>" in
  let output := fixLinks document (lit "/x/y.html") Sample.webview in
  AnchorOrHttp (lit "#top")
  /\ Contains occurrence document
  /\ output = lit "<p>Is it href=" ++ dq ++ lit "sandbox://x" ++ dq ++ lit "#top" ++ dq ++ lit ">up</a>"
  /\ ~ Contains occurrence output.
Proof.
  split; [ left; exists (lit "top"); reflexivity | ].
  split; [ apply includes_Contains; vm_compute; reflexivity | ].
  split; [ vm_compute; reflexivity | ].
  intros H. apply Contains_includes in H. vm_compute in H. discriminate H.
Qed.

(** C7, amended: every match of the scan (the pattern tried from left to
    right, each match starting behind the one before) is an attribute
    text of the document; where its value starts with [#], or with
    [http://] or [https://] in any letter case, the output has the
    matched text as the document has it, character for character,
    between the rewriting of the text before it and the rewriting of the
    text after it. *)
Theorem fixLinks_keeps_anchor_and_http (document documentPath : jsstring)
        (webView : Webview) (before after : list RegExp.Segment) (m : RegExp.Match) :
  RegExp.scan document = before ++ RegExp.Matched m :: after ->
  AnchorOrHttp (RegExp.p2 m) ->
  AttributeText m
  /\ document = sourceText before ++ RegExp.subString m ++ sourceText after
  /\ fixLinks document documentPath webView
     = fixLinks (sourceText before) documentPath webView
       ++ RegExp.subString m
       ++ fixLinks (sourceText after) documentPath webView.
Proof.
  intros Hscan Hskip.
  destruct (fixLinks_around document documentPath webView before after m Hscan)
    as (Hm & Hdoc & Hout).
  split; [ exact Hm | ]. split; [ exact Hdoc | ]. rewrite Hout.
  unfold fixLink. apply isAnchorOrHttp_spec in Hskip. now rewrite Hskip.
Qed.

Lemma fixLinks_keeps_anchor_and_http_sample :
  let m := {| RegExp.p1 := lit "href=" ++ dq; RegExp.p2 := lit "#section"; RegExp.p3 := dq |} in
  AttributeText m
  /\ lit "<a href=" ++ dq ++ lit "#section" ++ dq ++ lit ">"
     = sourceText (map RegExp.Verbatim (lit "<a ")) ++ RegExp.subString m
       ++ sourceText (map RegExp.Verbatim (lit ">"))
  /\ fixLinks (lit "<a href=" ++ dq ++ lit "#section" ++ dq ++ lit ">")
              (lit "/x/y.html") Sample.webview
     = fixLinks (sourceText (map RegExp.Verbatim (lit "<a "))) (lit "/x/y.html") Sample.webview
       ++ RegExp.subString m
       ++ fixLinks (sourceText (map RegExp.Verbatim (lit ">"))) (lit "/x/y.html") Sample.webview.
Proof.
  apply (fixLinks_keeps_anchor_and_http
           (lit "<a href=" ++ dq ++ lit "#section" ++ dq ++ lit ">")
           (lit "/x/y.html") Sample.webview
           (map RegExp.Verbatim (lit "<a "))
           (map RegExp.Verbatim (lit ">"))
           {| RegExp.p1 := lit "href=" ++ dq; RegExp.p2 := lit "#section"; RegExp.p3 := dq |}).
  - reflexivity.
  - left. exists (lit "section"). reflexivity.
Defined.

(** The three links of the specification's example come back as they
    went in, whatever the webview maps paths to. *)
Example fixLinks_leaves_examples (webView : Webview) :
  let anchor := lit "<a href=" ++ dq ++ lit "#section" ++ dq ++ lit ">" in
  let secure := lit "<a href=" ++ dq ++ lit "https://example.com" ++ dq ++ lit ">" in
  let plain := lit "<a href=" ++ dq ++ lit "http://example.com/p?q=1" ++ dq ++ lit ">" in
  let shout := lit "<A HREF='HTTP://EXAMPLE.COM/'>" in
  fixLinks anchor (lit "/x/y.html") webView = anchor
  /\ fixLinks secure (lit "/x/y.html") webView = secure
  /\ fixLinks plain (lit "/x/y.html") webView = plain
  /\ fixLinks shout (lit "/x/y.html") webView = shout.
Proof. repeat split; reflexivity. Qed.

(** A relative link is resolved against the directory of the document
    and mapped by the webview. *)
Example fixLinks_rewrites_image (webView : Webview) :
  fixLinks (lit "<img src=" ++ dq ++ lit "a.png" ++ dq ++ lit ">") (lit "/x/y.html") webView
  = lit "<img src=" ++ dq ++ asWebviewUri webView (Uri_file (lit "/x/a.png")) ++ dq ++ lit ">".
Proof.
  rewrite (app_assoc (asWebviewUri webView _) dq (lit ">")). vm_compute. reflexivity.
Qed.

Lemma indexFrom_first (c : ascii) (a b : jsstring) (i : nat) :
  ~ In c a -> JS.indexFrom c (a ++ c :: b) i = Some (i + length a).
Proof.
  revert i. induction a as [ | x a IH]; intros i Hin; cbn.
  - rewrite Ascii.eqb_refl. f_equal. lia.
  - destruct (Ascii.eqb x c) eqn:E.
    + apply Ascii.eqb_eq in E. subst x. elim Hin. now left.
    + rewrite IH; [ f_equal; lia | intros H; apply Hin; now right ].
Qed.

Lemma indexFrom_absent (c : ascii) (s : jsstring) (i : nat) :
  ~ In c s -> JS.indexFrom c s i = None.
Proof.
  revert i. induction s as [ | x s IH]; intros i Hin; [ reflexivity | ].
  cbn. destruct (Ascii.eqb x c) eqn:E.
  - apply Ascii.eqb_eq in E. subst x. elim Hin. now left.
  - apply IH. intros H. apply Hin. now right.
Qed.

Lemma substring_prefix (a b : jsstring) :
  JS.substring (a ++ b) 0 (Z.of_nat (length a)) = a.
Proof.
  unfold JS.substring, JS.clamp. rewrite Nat2Z.id. cbn [Z.to_nat].
  rewrite length_app. rewrite Nat.min_0_l.
  replace (Nat.min (length a) (length a + length b)) with (length a) by lia.
  rewrite Nat.min_0_l, Nat.max_0_l, Nat.sub_0_r. cbn [skipn].
  rewrite firstn_app, Nat.sub_diag, firstn_all. cbn. apply app_nil_r.
Qed.

(** The query goes with its question mark. *)
Lemma stripQuery_query (base query : jsstring) :
  ~ In chQuestion base -> stripQuery (base ++ [chQuestion] ++ query) = base.
Proof.
  intros Hin. unfold stripQuery, JS.indexOf. cbn [app].
  rewrite indexFrom_first by exact Hin. cbn [Nat.add].
  replace (Z.of_nat (length base) >? -1)%Z with true by (symmetry; apply Z.gtb_lt; lia).
  apply substring_prefix.
Qed.

Lemma stripQuery_none (v : jsstring) : ~ In chQuestion v -> stripQuery v = v.
Proof.
  intros H. unfold stripQuery, JS.indexOf. now rewrite (indexFrom_absent chQuestion v 0 H).
Qed.

Lemma not_AnchorOrHttp (v : jsstring) : isAnchorOrHttp v = false -> ~ AnchorOrHttp v.
Proof.
  intros H Hs. apply isAnchorOrHttp_spec in Hs. congruence.
Qed.

(** C8, as stated, fails for the fragment: only a question mark is
    looked for, so a fragment that stands before it, or in a value
    without one, stays in the path that is resolved and handed to the
    webview, and is there in the rewritten attribute. *)
Lemma fixLinks_keeps_fragment :
  let link := fun value => lit "<a href=" ++ dq ++ value ++ dq ++ lit ">" in
  let output := fun value => fixLinks (link value) (lit "/x/y.html") Sample.webview in
  output (lit "a.html#sec")
  = link (asWebviewUri Sample.webview (Uri_file (lit "/x/a.html#sec")))
  /\ output (lit "a.html#sec?v=2")
     = link (asWebviewUri Sample.webview (Uri_file (lit "/x/a.html#sec")))
  /\ output (lit "a.html#sec")
     <> link (asWebviewUri Sample.webview (Uri_file (lit "/x/a.html")))
  /\ Contains (lit "#sec") (output (lit "a.html#sec")).
Proof.
  split; [ vm_compute; reflexivity | ].
  split; [ vm_compute; reflexivity | ].
  split; [ vm_compute; discriminate | ].
  apply includes_Contains. vm_compute. reflexivity.
Qed.

(** C8, amended: where the scan finds an attribute with a relative
    value, the value is cut at its first question mark: with [base] what
    stands before it (the whole value when there is none), the rewritten
    attribute is the opening of the attribute, the webview's address of
    [base] resolved against the directory of the document, and the
    closing quote.  The path is resolved without the query and nothing
    of the query is written back; [base] is taken as it is, a fragment
    in it included. *)
Theorem fixLinks_drops_query (document documentPath : jsstring) (webView : Webview)
        (before after : list RegExp.Segment) (m : RegExp.Match) (base suffix : jsstring) :
  RegExp.scan document = before ++ RegExp.Matched m :: after ->
  RegExp.p2 m = base ++ suffix ->
  ~ In chQuestion base ->
  suffix = [] \/ (exists query, suffix = [chQuestion] ++ query) ->
  ~ AnchorOrHttp (RegExp.p2 m) ->
  fixLinks document documentPath webView
  = fixLinks (sourceText before) documentPath webView
    ++ (RegExp.p1 m
        ++ asWebviewUri webView (Uri_file (Path.join [Path.dirname documentPath; base]))
        ++ RegExp.p3 m)
    ++ fixLinks (sourceText after) documentPath webView.
Proof.
  intros Hscan Hvalue Hbase Hsuffix Hrel.
  destruct (fixLinks_around document documentPath webView before after m Hscan)
    as (_ & _ & Hout).
  rewrite Hout. unfold fixLink.
  destruct (isAnchorOrHttp (RegExp.p2 m)) eqn:Hskip.
  - elim Hrel. now apply isAnchorOrHttp_spec.
  - rewrite Hvalue. destruct Hsuffix as [-> | [query ->]].
    + rewrite app_nil_r, stripQuery_none by exact Hbase. reflexivity.
    + rewrite stripQuery_query by exact Hbase. reflexivity.
Qed.

Lemma fixLinks_drops_query_sample :
  fixLinks (lit "<script src=" ++ dq ++ lit "b.js?v=2" ++ dq ++ lit ">")
           (lit "/x/y.html") Sample.webview
  = fixLinks (sourceText (map RegExp.Verbatim (lit "<script "))) (lit "/x/y.html") Sample.webview
    ++ ((lit "src=" ++ dq)
        ++ asWebviewUri Sample.webview
             (Uri_file (Path.join [Path.dirname (lit "/x/y.html"); lit "b.js"]))
        ++ dq)
    ++ fixLinks (sourceText (map RegExp.Verbatim (lit ">"))) (lit "/x/y.html") Sample.webview.
Proof.
  apply (fixLinks_drops_query
           (lit "<script src=" ++ dq ++ lit "b.js?v=2" ++ dq ++ lit ">")
           (lit "/x/y.html") Sample.webview
           (map RegExp.Verbatim (lit "<script "))
           (map RegExp.Verbatim (lit ">"))
           {| RegExp.p1 := lit "src=" ++ dq; RegExp.p2 := lit "b.js?v=2"; RegExp.p3 := dq |}
           (lit "b.js") (lit "?v=2")).
  - reflexivity.
  - reflexivity.
  - cbn. intros [H | [H | [H | [H | []]]]]; discriminate H.
  - right. exists (lit "v=2"). reflexivity.
  - apply not_AnchorOrHttp. reflexivity.
Defined.

(** The specification's example of a query, whatever the webview maps
    paths to: the path handed to it is [/x/b.js]. *)
Example fixLinks_query_example (webView : Webview) :
  fixLinks (lit "<script src=" ++ dq ++ lit "b.js?v=2" ++ dq ++ lit ">")
           (lit "/x/y.html") webView
  = lit "<script src=" ++ dq ++ asWebviewUri webView (Uri_file (lit "/x/b.js")) ++ dq ++ lit ">".
Proof.
  rewrite (app_assoc (asWebviewUri webView _) dq (lit ">")). vm_compute. reflexivity.
Qed.

(** Where the pattern matches, an attribute opens. *)
Lemma execAt_HasAttribute (before s : jsstring) (m : RegExp.Match) (rest : jsstring) :
  RegExp.execAt s = Some (m, rest) -> HasAttribute (before ++ s).
Proof.
  unfold RegExp.execAt. intros H.
  destruct (RegExp.opener s) as [[g1 s1] | ] eqn:Ho; [ | discriminate ].
  apply opener_sound in Ho as [-> (name & quote & -> & Hname & Hquote)].
  exists before, name, quote, s1. repeat split; try assumption.
  now rewrite <- !app_assoc.
Qed.

Lemma scanFrom_without_match (fuel : nat) (before s : jsstring) :
  ~ HasAttribute (before ++ s) ->
  length s <= fuel ->
  RegExp.scanFrom fuel s = map RegExp.Verbatim s.
Proof.
  revert before s. induction fuel as [ | fuel IH]; intros before s Hno Hlen.
  - destruct s; [ reflexivity | cbn in Hlen; lia ].
  - destruct s as [ | c s]; [ reflexivity | ].
    cbn [RegExp.scanFrom map].
    destruct (RegExp.execAt (c :: s)) as [[m rest] | ] eqn:He.
    + elim Hno. exact (execAt_HasAttribute before (c :: s) m rest He).
    + f_equal. apply (IH (before ++ [c])).
      * now rewrite <- app_assoc.
      * cbn in Hlen. lia.
Qed.

Lemma concat_singletons (s : jsstring) :
  concat (map (fun c => [c]) s) = s.
Proof.
  induction s as [ | c s IH]; [ reflexivity | ]. cbn. now rewrite IH.
Qed.

(** C9: a document in which no [src] or [href] attribute opens comes
    back from the link rewriter as it went in. *)
Theorem fixLinks_identity_without_attributes (document documentPath : jsstring)
        (webView : Webview) :
  ~ HasAttribute document ->
  fixLinks document documentPath webView = document.
Proof.
  intros Hno. unfold fixLinks, RegExp.replace, RegExp.scan.
  rewrite (scanFrom_without_match (length document) [] document Hno (le_n _)).
  rewrite map_map. cbn [RegExp.replaceSegment]. apply concat_singletons.
Qed.

Lemma opener_complete (name : jsstring) (quote : ascii) (after : jsstring) :
  JS.toLowerCase name = lit "src" \/ JS.toLowerCase name = lit "href" ->
  quote = chQuote \/ quote = chDQuote ->
  RegExp.opener (name ++ [chEquals] ++ [quote] ++ after) <> None.
Proof.
  intros Hname Hquote.
  assert (Hq : RegExp.isQuote quote = true) by (destruct Hquote; subst; reflexivity).
  assert (Hup : forall c p, JS.lowerUnit c = p -> (nat_of_ascii p <? 128) = true ->
                            RegExp.eqIgnoreCase c p = true).
  { intros c p Hc Hp.
    pose (check := fun c p : ascii =>
            implb (Ascii.eqb (JS.lowerUnit c) p)
                  (implb (nat_of_ascii p <? 128) (RegExp.eqIgnoreCase c p))).
    assert (T : forallb (fun c => forallb (check c) allUnits) allUnits = true)
      by (vm_compute; reflexivity).
    pose proof (forall_units _ (forall_units _ T c) p) as G. unfold check in G.
    apply Ascii.eqb_eq in Hc. now rewrite Hc, Hp in G. }
  unfold RegExp.opener.
  destruct Hname as [Hname | Hname].
  - destruct name as [ | a [ | b [ | c [ | ? ?]]]]; try discriminate Hname.
    injection Hname as Ha Hb Hc.
    cbn [app RegExp.literal lit list_ascii_of_string].
    rewrite (Hup a _ Ha eq_refl), (Hup b _ Hb eq_refl), (Hup c _ Hc eq_refl).
    replace (RegExp.eqIgnoreCase chEquals "=") with true by reflexivity.
    cbn -[RegExp.isQuote]. rewrite Hq. discriminate.
  - destruct name as [ | a [ | b [ | c [ | d [ | ? ?]]]]]; try discriminate Hname.
    injection Hname as Ha Hb Hc Hd.
    cbn [app RegExp.literal lit list_ascii_of_string].
    assert (Hs : RegExp.eqIgnoreCase a "s" = false).
    { pose (check := fun c : ascii =>
              implb (Ascii.eqb (JS.lowerUnit c) "h") (negb (RegExp.eqIgnoreCase c "s"))).
      assert (T : forallb check allUnits = true) by (vm_compute; reflexivity).
      pose proof (forall_units _ T a) as G. unfold check in G.
      apply Ascii.eqb_eq in Ha. rewrite Ha in G. cbn in G.
      now apply negb_true_iff. }
    rewrite Hs.
    rewrite (Hup a _ Ha eq_refl), (Hup b _ Hb eq_refl), (Hup c _ Hc eq_refl),
      (Hup d _ Hd eq_refl).
    replace (RegExp.eqIgnoreCase chEquals "=") with true by reflexivity.
    cbn -[RegExp.isQuote]. rewrite Hq. discriminate.
Qed.

Lemma opensAttribute_here (s : jsstring) :
  RegExp.opener s <> None -> opensAttribute s = true.
Proof.
  intros H. destruct s; cbn [opensAttribute]; destruct (RegExp.opener _);
    solve [ reflexivity | now elim H ].
Qed.

Lemma opensAttribute_later (before s : jsstring) :
  opensAttribute s = true -> opensAttribute (before ++ s) = true.
Proof.
  intros H. induction before as [ | c before IH]; [ exact H | ].
  cbn [app opensAttribute]. destruct (RegExp.opener _); [ reflexivity | exact IH ].
Qed.

Lemma opensAttribute_false (document : jsstring) :
  opensAttribute document = false -> ~ HasAttribute document.
Proof.
  intros H (before & name & quote & after & -> & Hname & Hquote).
  rewrite opensAttribute_later in H; [ discriminate | ].
  apply opensAttribute_here. now apply opener_complete.
Qed.

Lemma fixLinks_identity_without_attributes_sample :
  fixLinks (lit "<p>No links here, only an id='intro' and prose.</p>")
           (lit "/x/y.html") Sample.webview
  = lit "<p>No links here, only an id='intro' and prose.</p>".
Proof.
  apply (fixLinks_identity_without_attributes
           (lit "<p>No links here, only an id='intro' and prose.</p>")
           (lit "/x/y.html") Sample.webview).
  apply opensAttribute_false. vm_compute. reflexivity.
Defined.

(** ** The path of the built HTML file *)

(** [lastIndexOf] finds the dot before an extension that has none. *)
Lemma lastIndexOf_last (c : ascii) (stem ext : jsstring) :
  ~ In c ext ->
  JS.lastIndexOf (stem ++ c :: ext) c = Z.of_nat (length stem).
Proof.
  intros Hin. unfold JS.lastIndexOf.
  rewrite rev_app_distr. cbn [rev]. rewrite <- app_assoc. cbn [app].
  rewrite indexFrom_first by (rewrite <- in_rev; exact Hin).
  rewrite length_rev, length_app. cbn [length Nat.add]. f_equal. lia.
Qed.

Lemma lastIndexOf_absent (c : ascii) (s : jsstring) :
  ~ In c s -> JS.lastIndexOf s c = (-1)%Z.
Proof.
  intros Hin. unfold JS.lastIndexOf.
  rewrite indexFrom_absent by (rewrite <- in_rev; exact Hin). reflexivity.
Qed.

(** The extension is replaced where the path has one. *)
Lemma extension_replaced (stem ext : jsstring) :
  ~ In chDot ext ->
  let whole := stem ++ chDot :: ext in
  JS.substring whole 0 (JS.lastIndexOf whole chDot) ++ lit ".html" = stem ++ lit ".html".
Proof.
  intros Hin whole. subst whole. rewrite lastIndexOf_last by exact Hin.
  now rewrite substring_prefix.
Qed.

(** Without a dot anywhere in the path, [lastIndexOf] answers [-1],
    [substring(0, -1)] is empty, and nothing of the path is left. *)
Lemma extension_without_dot (whole : jsstring) :
  ~ In chDot whole ->
  JS.substring whole 0 (JS.lastIndexOf whole chDot) ++ lit ".html" = lit ".html".
Proof.
  intros Hin. rewrite lastIndexOf_absent by exact Hin.
  unfold JS.substring, JS.clamp. cbn [Z.to_nat]. rewrite !Nat.min_0_l. reflexivity.
Qed.

(** C3, as the code has it: for [README] in the project directory the
    file looked for is [.html], one level above the mirrored place, and
    not [README.html]; with a dot in a directory name the path is cut at
    that dot. *)
Theorem source_without_extension_loses_its_name :
  htmlPathOf Sample.host (lit "/proj/README") (lit "/proj") (lit "/proj/_build/html")
  = lit "/proj/_build/.html"
  /\ htmlPathOf Sample.host (lit "/proj/README") (lit "/proj") (lit "/proj/_build/html")
     <> lit "/proj/_build/html/README.html"
  /\ htmlPathOf Sample.host (lit "/home/me/my.docs/README") (lit "/home/me/my.docs")
                (lit "/home/me/my.docs/_build/html")
     = lit "/home/me/my.docs/_build/my.html".
Proof.
  repeat split; try (vm_compute; reflexivity). vm_compute. discriminate.
Qed.

(** *** Segments *)

Lemma absolutePath_app (a b : list jsstring) :
  absolutePath (a ++ b) = absolutePath a ++ absolutePath b.
Proof. unfold absolutePath. now rewrite map_app, concat_app. Qed.

Lemma jsstring_eqb_eq (a b : jsstring) : jsstring_eqb a b = true <-> a = b.
Proof.
  unfold jsstring_eqb. destruct (list_eq_dec ascii_dec a b); split; congruence.
Qed.

Lemma jsstring_eqb_neq (a b : jsstring) : a <> b -> jsstring_eqb a b = false.
Proof.
  unfold jsstring_eqb. destruct (list_eq_dec ascii_dec a b); congruence.
Qed.

Lemma jsstring_eqb_refl (a : jsstring) : jsstring_eqb a a = true.
Proof. now apply jsstring_eqb_eq. Qed.

Lemma split_nonempty (c : ascii) (s : jsstring) : JS.split c s <> [].
Proof.
  destruct s as [ | x s]; cbn; [ discriminate | ].
  destruct (Ascii.eqb x c); [ discriminate | ].
  destruct (JS.split c s); discriminate.
Qed.

Lemma split_app (c : ascii) (a b : jsstring) :
  JS.split c (a ++ c :: b) = JS.split c a ++ JS.split c b.
Proof.
  induction a as [ | x a IH]; cbn [app JS.split].
  - now rewrite Ascii.eqb_refl.
  - destruct (Ascii.eqb x c); rewrite IH; [ reflexivity | ].
    pose proof (split_nonempty c a) as Hne.
    destruct (JS.split c a); [ now elim Hne | reflexivity ].
Qed.

Lemma split_whole (c : ascii) (s : jsstring) :
  ~ In c s -> JS.split c s = [s].
Proof.
  induction s as [ | x s IH]; intros Hin; [ reflexivity | ].
  cbn [JS.split]. destruct (Ascii.eqb x c) eqn:E.
  - apply Ascii.eqb_eq in E. subst x. elim Hin. now left.
  - rewrite IH; [ reflexivity | intros H; apply Hin; now right ].
Qed.

Lemma split_segments (seg : jsstring) (segs : list jsstring) :
  ~ In chSlash seg ->
  Forall (fun s => ~ In chSlash s) segs ->
  JS.split chSlash (seg ++ absolutePath segs) = seg :: segs.
Proof.
  intros Hseg Hsegs. revert seg Hseg.
  induction Hsegs as [ | s segs Hs Hsegs IH]; intros seg Hseg.
  - cbn. rewrite app_nil_r. now apply split_whole.
  - change (absolutePath (s :: segs)) with (chSlash :: s ++ absolutePath segs).
    rewrite split_app, split_whole by exact Hseg. now rewrite IH.
Qed.

Lemma split_absolutePath (segs : list jsstring) :
  Forall (fun s => ~ In chSlash s) segs ->
  JS.split chSlash (absolutePath segs) = [] :: segs.
Proof.
  intros H. apply (split_segments [] segs); [ intros [] | exact H ].
Qed.

Lemma Proper_no_slash (segs : list jsstring) :
  Forall ProperSegment segs -> Forall (fun s => ~ In chSlash s) segs.
Proof. apply Forall_impl. intros s (_ & H & _). exact H. Qed.

Lemma pushSegment_proper (allow : bool) (kept : list jsstring) (seg : jsstring) :
  ProperSegment seg -> Path.pushSegment allow kept seg = seg :: kept.
Proof.
  intros (Hne & _ & Hdot & Hdd). unfold Path.pushSegment.
  now rewrite !jsstring_eqb_neq.
Qed.

Lemma fold_pushSegment_proper (allow : bool) (segs kept : list jsstring) :
  Forall ProperSegment segs ->
  fold_left (Path.pushSegment allow) segs kept = rev segs ++ kept.
Proof.
  intros H. revert kept. induction H as [ | s segs Hs Hsegs IH]; intros kept.
  - reflexivity.
  - cbn [fold_left rev]. rewrite pushSegment_proper by exact Hs.
    rewrite IH, <- app_assoc. reflexivity.
Qed.

Lemma fold_left_snoc {A B} (f : A -> B -> A) (l : list B) (x : B) (a : A) :
  fold_left f (l ++ [x]) a = f (fold_left f l a) x.
Proof. now rewrite fold_left_app. Qed.

(** Proper segments, with or without a closing slash, are what
    [normalizeString] leaves of them. *)
Lemma normalizeSegments_absolutePath (allow : bool) (segs : list jsstring) :
  Forall ProperSegment segs ->
  Path.normalizeSegments allow (absolutePath segs) = segs
  /\ Path.normalizeSegments allow (absolutePath segs ++ [chSlash]) = segs.
Proof.
  intros H. unfold Path.normalizeSegments. split.
  - rewrite split_absolutePath by now apply Proper_no_slash.
    cbn [fold_left]. change (Path.pushSegment allow [] []) with (@nil jsstring).
    rewrite fold_pushSegment_proper by exact H.
    now rewrite app_nil_r, rev_involutive.
  - rewrite split_app, split_absolutePath by now apply Proper_no_slash.
    cbn [JS.split]. change (([] :: segs) ++ [[]]) with ([] :: (segs ++ [[]])).
    cbn [fold_left]. change (Path.pushSegment allow [] []) with (@nil jsstring).
    rewrite fold_left_snoc, fold_pushSegment_proper by exact H.
    change (Path.pushSegment allow (rev segs ++ []) []) with (rev segs ++ []).
    now rewrite app_nil_r, rev_involutive.
Qed.

Lemma absolutePath_join (segs : list jsstring) :
  segs <> [] -> absolutePath segs = chSlash :: JS.join [chSlash] segs.
Proof.
  induction segs as [ | s segs IH]; intros Hne; [ now elim Hne | ].
  destruct segs as [ | s' segs].
  - cbn. now rewrite app_nil_r.
  - change (absolutePath (s :: s' :: segs)) with (chSlash :: s ++ absolutePath (s' :: segs)).
    rewrite IH by discriminate. reflexivity.
Qed.

Lemma join_nonempty (segs : list jsstring) :
  segs <> [] -> Forall ProperSegment segs -> JS.join [chSlash] segs <> [].
Proof.
  intros Hne H. destruct H as [ | s segs (Hs & _) _]; [ now elim Hne | ].
  destruct s; [ now elim Hs | ]. destruct segs; discriminate.
Qed.

Lemma rev_head_last (t : jsstring) :
  t <> [] -> exists c r, rev t = c :: r /\ In c t.
Proof.
  intros Hne. destruct (rev t) as [ | c r] eqn:E.
  - apply (f_equal (@rev ascii)) in E. rewrite rev_involutive in E. now elim Hne.
  - exists c, r. split; [ reflexivity | ]. apply in_rev. rewrite E. now left.
Qed.

Lemma isSlash_false (c : ascii) (t : jsstring) :
  In c t -> ~ In chSlash t -> Path.isSlash c = false.
Proof.
  intros Hc Hno. unfold Path.isSlash. destruct (Ascii.eqb c chSlash) eqn:E; [ | reflexivity ].
  apply Ascii.eqb_eq in E. subst c. now elim Hno.
Qed.

Lemma endsWithSlash_name (x t : jsstring) :
  t <> [] -> ~ In chSlash t -> Path.endsWithSlash (x ++ t) = false.
Proof.
  intros Hne Hno. unfold Path.endsWithSlash. rewrite rev_app_distr.
  destruct (rev_head_last t Hne) as (c & r & -> & Hc). cbn [app].
  exact (isSlash_false c t Hc Hno).
Qed.

Lemma absolutePath_snoc (segs : list jsstring) (seg : jsstring) :
  absolutePath (segs ++ [seg]) = absolutePath segs ++ chSlash :: seg.
Proof.
  rewrite absolutePath_app. cbn. now rewrite app_nil_r.
Qed.

Lemma Forall_last {A} (P : A -> Prop) (l : list A) :
  l <> [] -> Forall P l -> exists init x, l = init ++ [x] /\ P x.
Proof.
  intros Hne H. destruct (exists_last Hne) as (init & x & ->).
  exists init, x. split; [ reflexivity | ].
  apply Forall_app in H as [_ H]. now inversion H.
Qed.

Lemma normalize_rooted (body : jsstring) :
  Path.normalize (chSlash :: body)
  = let b := Path.normalizeString false (chSlash :: body) in
    match b with
    | [] => [chSlash]
    | _ => chSlash :: (if Path.endsWithSlash (chSlash :: body) then b ++ [chSlash] else b)
    end.
Proof. reflexivity. Qed.

Lemma resolve_rooted (cwd body : jsstring) :
  Path.resolve cwd (chSlash :: body)
  = chSlash :: Path.normalizeString false ((chSlash :: body) ++ [chSlash]).
Proof. reflexivity. Qed.

(** [path.normalize] leaves an absolute path of proper segments alone. *)
Lemma normalize_absolutePath (segs : list jsstring) :
  segs <> [] -> Forall ProperSegment segs ->
  Path.normalize (absolutePath segs) = absolutePath segs.
Proof.
  intros Hne H.
  pose proof (absolutePath_join segs Hne) as E.
  pose proof (join_nonempty segs Hne H) as Hbody.
  destruct (Forall_last _ segs Hne H) as (init & seg & Hsegs & Hseg & Hslash & _).
  assert (Htrail : Path.endsWithSlash (absolutePath segs) = false).
  { rewrite Hsegs, absolutePath_snoc.
    change (absolutePath init ++ chSlash :: seg)
      with (absolutePath init ++ [chSlash] ++ seg).
    rewrite app_assoc. now apply endsWithSlash_name. }
  destruct (normalizeSegments_absolutePath false segs H) as [Hn _].
  rewrite E at 1. rewrite normalize_rooted, <- E, Htrail. cbv zeta.
  unfold Path.normalizeString. rewrite Hn.
  destruct (JS.join [chSlash] segs) eqn:Ej; [ now elim Hbody | ].
  now rewrite E.
Qed.

(** [path.resolve] leaves it alone as well, whatever the working
    directory. *)
Lemma resolve_absolutePath (cwd : jsstring) (segs : list jsstring) :
  segs <> [] -> Forall ProperSegment segs ->
  Path.resolve cwd (absolutePath segs) = absolutePath segs.
Proof.
  intros Hne H.
  pose proof (absolutePath_join segs Hne) as E.
  destruct (normalizeSegments_absolutePath false segs H) as [_ Hn].
  rewrite E at 1. rewrite resolve_rooted, <- E.
  unfold Path.normalizeString. rewrite Hn. now rewrite E.
Qed.
Lemma segmentsOf_absolutePath (segs : list jsstring) :
  Forall ProperSegment segs -> Path.segmentsOf (absolutePath segs) = segs.
Proof.
  intros H. unfold Path.segmentsOf.
  rewrite split_absolutePath by now apply Proper_no_slash.
  cbn [filter]. change (negb (jsstring_eqb [] [])) with false. cbn iota.
  induction H as [ | s segs (Hs & _) _ IH]; [ reflexivity | ].
  cbn [filter]. rewrite jsstring_eqb_neq by exact Hs. cbn [negb]. now rewrite IH.
Qed.

Lemma dropCommon_prefix (common rest : list jsstring) :
  Path.dropCommon common (common ++ rest) = ([], rest).
Proof.
  induction common as [ | s common IH]; [ reflexivity | ].
  cbn [app Path.dropCommon]. now rewrite jsstring_eqb_refl.
Qed.

Lemma absolutePath_nil_iff (segs : list jsstring) :
  absolutePath segs = [] -> segs = [].
Proof. destruct segs; [ reflexivity | discriminate ]. Qed.

(** From a directory to one below it, [path.relative] gives the segments
    in between. *)
Lemma relative_below (cwd : jsstring) (dir below : list jsstring) :
  dir <> [] -> Forall ProperSegment dir -> Forall ProperSegment below ->
  Path.relative cwd (absolutePath dir) (absolutePath (dir ++ below))
  = JS.join [chSlash] below.
Proof.
  intros Hne Hdir Hbelow. destruct below as [ | b below].
  - rewrite app_nil_r. unfold Path.relative. now rewrite jsstring_eqb_refl.
  - assert (Hdiff : absolutePath dir <> absolutePath (dir ++ b :: below)).
    { rewrite absolutePath_app. intros E.
      apply (f_equal (@length ascii)) in E. rewrite length_app in E.
      cbn in E. lia. }
    unfold Path.relative. rewrite jsstring_eqb_neq by exact Hdiff.
    rewrite !resolve_absolutePath;
      try (now apply Forall_app); try exact Hne; try exact Hdir;
      try (intros E; apply app_eq_nil in E as [_ E]; discriminate).
    rewrite jsstring_eqb_neq by exact Hdiff.
    rewrite !segmentsOf_absolutePath; try (now apply Forall_app); try exact Hdir.
    rewrite dropCommon_prefix. reflexivity.
Qed.

Lemma join_cons (sep first : jsstring) (rest : list jsstring) :
  JS.join sep (first :: rest)
  = match rest with [] => first | _ => first ++ sep ++ JS.join sep rest end.
Proof. destruct rest; reflexivity. Qed.

(** Joining a path with runs of proper segments, the empty runs left
    out, appends the segments to it. *)
Lemma join_runs (first : jsstring) (runs : list (list jsstring)) :
  Forall (Forall ProperSegment) runs ->
  JS.join [chSlash] (first :: filter nonEmpty (map (JS.join [chSlash]) runs))
  = first ++ absolutePath (concat runs).
Proof.
  intros H. revert first. induction H as [ | run runs Hrun Hruns IH]; intros first.
  - cbn. now rewrite app_nil_r.
  - cbn [map filter concat]. unfold nonEmpty at 1.
    destruct run as [ | s run].
    + cbn [JS.join app]. rewrite jsstring_eqb_refl. cbn [negb]. apply IH.
    + rewrite jsstring_eqb_neq by (apply join_nonempty; [ discriminate | exact Hrun ]).
      cbn [negb]. rewrite join_cons, IH, absolutePath_app.
      rewrite (absolutePath_join (s :: run)) by discriminate.
      reflexivity.
Qed.

(** [path.join] of an absolute directory and relative runs below it. *)
Lemma join_absolutePath (dir : list jsstring) (runs : list (list jsstring)) :
  dir <> [] -> Forall ProperSegment dir -> Forall (Forall ProperSegment) runs ->
  Path.join (absolutePath dir :: map (JS.join [chSlash]) runs)
  = absolutePath (dir ++ concat runs).
Proof.
  intros Hne Hdir Hruns. unfold Path.join. cbn [filter].
  assert (Hd : absolutePath dir <> []).
  { intros E. apply absolutePath_nil_iff in E. contradiction. }
  rewrite jsstring_eqb_neq by exact Hd. cbn [negb].
  change (fun p : jsstring => negb (jsstring_eqb p [])) with nonEmpty.
  rewrite join_runs by exact Hruns.
  rewrite <- absolutePath_app. apply normalize_absolutePath.
  - intros E. apply app_eq_nil in E as [E _]. contradiction.
  - apply Forall_app. split; [ exact Hdir | ]. now apply Forall_concat.
Qed.

Lemma dropWhile_head (f : ascii -> bool) (c : ascii) (s : jsstring) :
  f c = false -> Path.dropWhile f (c :: s) = c :: s.
Proof. intros H. cbn. now rewrite H. Qed.

Lemma dropWhile_all (f : ascii -> bool) (a b : jsstring) :
  Forall (fun c => f c = true) a -> Path.dropWhile f (a ++ b) = Path.dropWhile f b.
Proof.
  induction 1 as [ | c a Hc Ha IH]; [ reflexivity | ]. cbn. now rewrite Hc.
Qed.

Lemma takeWhile_all (f : ascii -> bool) (a b : jsstring) :
  Forall (fun c => f c = true) a -> Path.takeWhile f (a ++ b) = a ++ Path.takeWhile f b.
Proof.
  induction 1 as [ | c a Hc Ha IH]; [ reflexivity | ]. cbn. now rewrite Hc, IH.
Qed.

Lemma notSlash_all (t : jsstring) :
  ~ In chSlash t -> Forall (fun c => Path.notSlash c = true) (rev t).
Proof.
  intros Hno. apply Forall_forall. intros c Hc. apply in_rev in Hc.
  unfold Path.notSlash. now rewrite (isSlash_false c t Hc Hno).
Qed.

(** A path that ends in a name: the name is its [basename]. *)
Lemma basename_name (dir name : jsstring) :
  name <> [] -> ~ In chSlash name ->
  Path.basename (dir ++ chSlash :: name) = name.
Proof.
  intros Hne Hno. unfold Path.basename.
  rewrite rev_app_distr. cbn [rev]. rewrite <- app_assoc. cbn [app].
  destruct (rev_head_last name Hne) as (c & r & E & Hc).
  pose proof (notSlash_all name Hno) as Hall.
  rewrite E. cbn [app]. rewrite dropWhile_head by exact (isSlash_false c name Hc Hno).
  change (c :: r ++ chSlash :: rev dir) with ((c :: r) ++ chSlash :: rev dir).
  rewrite <- E, takeWhile_all by exact Hall.
  cbn. now rewrite app_nil_r, rev_involutive.
Qed.

(** And what stands before the slash is its [dirname], unless that is
    the root alone. *)
Lemma dirname_name (first : ascii) (dir name : jsstring) :
  name <> [] -> ~ In chSlash name ->
  dir <> [] \/ first <> chSlash ->
  Path.dirname ((first :: dir) ++ chSlash :: name) = first :: dir.
Proof.
  intros Hne Hno Hroot. unfold Path.dirname. cbn [app].
  rewrite rev_app_distr. cbn [rev]. rewrite <- app_assoc. cbn [app].
  destruct (rev_head_last name Hne) as (c & r & E & Hc).
  pose proof (notSlash_all name Hno) as Hall.
  rewrite E at 1. cbn [app]. rewrite dropWhile_head by exact (isSlash_false c name Hc Hno).
  change (c :: r ++ chSlash :: rev dir) with ((c :: r) ++ chSlash :: rev dir).
  rewrite <- E, dropWhile_all by exact Hall.
  cbn [Path.dropWhile]. change (Path.notSlash chSlash) with false. cbv iota.
  rewrite length_rev.
  assert (Hend : Path.isSlash first && (S (length dir) =? 1) = false).
  { destruct Hroot as [Hd | Hf].
    - destruct dir; [ now elim Hd | ]. cbn. apply andb_false_r.
    - unfold Path.isSlash. destruct (Ascii.eqb first chSlash) eqn:Ef; [ | reflexivity ].
      apply Ascii.eqb_eq in Ef. contradiction. }
  rewrite Hend.
  cbn [firstn]. f_equal. rewrite firstn_app, Nat.sub_diag, firstn_all.
  cbn. apply app_nil_r.
Qed.

Lemma ProperSegment_html (stem : jsstring) :
  ~ In chSlash stem -> ProperSegment (stem ++ lit ".html").
Proof.
  intros Hno. repeat split.
  - destruct stem; discriminate.
  - intros H. apply in_app_or in H as [H | H]; [ contradiction | ].
    cbn in H. repeat (destruct H as [H | H]; [ discriminate H | ]). exact H.
  - intros E. apply (f_equal (@length ascii)) in E. rewrite length_app in E.
    cbn in E. lia.
  - intros E. apply (f_equal (@length ascii)) in E. rewrite length_app in E.
    cbn in E. lia.
Qed.

(** The built file mirrors the source: for a source [stem.ext] in the
    directories [below] the project directory, and an output directory
    [out] inside the project directory, the HTML file is [stem.html] in
    the directories [below] the output directory. *)
Lemma htmlPathOf_mirrors (h : Host) (project out below : list jsstring)
      (stem ext : jsstring) :
  project <> [] ->
  Forall ProperSegment project -> Forall ProperSegment out ->
  Forall ProperSegment below ->
  ~ In chSlash stem -> ~ In chDot ext ->
  htmlPathOf h (absolutePath (project ++ below) ++ chSlash :: stem ++ chDot :: ext)
             (absolutePath project) (absolutePath (project ++ out))
  = absolutePath (project ++ out ++ below) ++ chSlash :: stem ++ lit ".html".
Proof.
  intros Hne Hproject Hout Hbelow Hstem Hext.
  pose proof (ProperSegment_html stem Hstem) as Hname.
  pose proof Hname as (Hname_ne & Hname_slash & Hname_rest).
  unfold htmlPathOf.
  change (absolutePath (project ++ below) ++ chSlash :: stem ++ chDot :: ext)
    with (absolutePath (project ++ below) ++ (chSlash :: stem) ++ chDot :: ext).
  rewrite app_assoc.
  rewrite (extension_replaced (absolutePath (project ++ below) ++ chSlash :: stem) ext Hext).
  rewrite <- app_assoc. cbn [app].
  assert (Hdir : exists dir, absolutePath (project ++ below) = chSlash :: dir /\ dir <> []).
  { rewrite absolutePath_join by (intros E; apply app_eq_nil in E as [E _]; contradiction).
    eexists. split; [ reflexivity | ].
    apply join_nonempty.
    - intros E. apply app_eq_nil in E as [E _]. contradiction.
    - now apply Forall_app. }
  destruct Hdir as (dir & Edir & Hdir).
  rewrite Edir at 1 2.
  rewrite (dirname_name chSlash dir (stem ++ lit ".html") Hname_ne Hname_slash (or_introl Hdir)).
  rewrite (basename_name (chSlash :: dir) (stem ++ lit ".html") Hname_ne Hname_slash).
  rewrite <- Edir.
  rewrite !relative_below by assumption.
  change [absolutePath project; JS.join [chSlash] out; JS.join [chSlash] below;
          stem ++ lit ".html"]
    with (absolutePath project
          :: map (JS.join [chSlash]) [out; below; [stem ++ lit ".html"]]).
  rewrite join_absolutePath; try assumption.
  - cbn [concat]. rewrite app_nil_r, !app_assoc, absolutePath_snoc.
    now rewrite <- !app_assoc.
  - repeat (apply Forall_cons; [ assumption | ]).
    apply Forall_cons; [ | apply Forall_nil ].
    apply Forall_cons; [ exact Hname | apply Forall_nil ].
Qed.

(** C6: for a project directory [configDir] (any absolute path of
    proper segments), the source [configDir/docs/index.rst] and the
    output directory [configDir/_build/html], the HTML file is
    [configDir/_build/html/docs/index.html]. *)
Theorem htmlPathOf_docs_index (h : Host) (project : list jsstring) :
  project <> [] ->
  Forall ProperSegment project ->
  let configDir := absolutePath project in
  htmlPathOf h (configDir ++ lit "/docs/index.rst") configDir
             (configDir ++ lit "/_build/html")
  = configDir ++ lit "/_build/html/docs/index.html".
Proof.
  intros Hne Hproject configDir. subst configDir.
  pose proof (htmlPathOf_mirrors h project [lit "_build"; lit "html"] [lit "docs"]
                (lit "index") (lit "rst") Hne Hproject) as H.
  rewrite !absolutePath_app in H. rewrite <- !app_assoc in H.
  apply H.
  - repeat constructor; try discriminate;
      cbn; intros G; repeat (destruct G as [G | G]; [ discriminate G | ]); exact G.
  - repeat constructor; try discriminate;
      cbn; intros G; repeat (destruct G as [G | G]; [ discriminate G | ]); exact G.
  - cbn; intros G; repeat (destruct G as [G | G]; [ discriminate G | ]); exact G.
  - cbn; intros G; repeat (destruct G as [G | G]; [ discriminate G | ]); exact G.
Qed.

Lemma htmlPathOf_docs_index_sample :
  htmlPathOf Sample.host (lit "/home/user/proj" ++ lit "/docs/index.rst")
             (lit "/home/user/proj") (lit "/home/user/proj" ++ lit "/_build/html")
  = lit "/home/user/proj" ++ lit "/_build/html/docs/index.html".
Proof.
  apply (htmlPathOf_docs_index Sample.host [lit "home"; lit "user"; lit "proj"]).
  - discriminate.
  - repeat constructor; try discriminate;
      cbn; intros G; repeat (destruct G as [G | G]; [ discriminate G | ]); exact G.
Defined.

(** *** The HTML file is never [conf.py] *)

Lemma join_snoc (sep : jsstring) (parts : list jsstring) (last : jsstring) :
  JS.join sep (parts ++ [last])
  = match parts with [] => last | _ => JS.join sep parts ++ sep ++ last end.
Proof.
  induction parts as [ | p parts IH]; [ reflexivity | ].
  destruct parts as [ | q parts]; [ reflexivity | ].
  change (JS.join sep ((p :: q :: parts) ++ [last]))
    with (p ++ sep ++ JS.join sep ((q :: parts) ++ [last])).
  rewrite IH.
  change (JS.join sep (p :: q :: parts)) with (p ++ sep ++ JS.join sep (q :: parts)).
  now rewrite <- !app_assoc.
Qed.

Lemma join_EndsWithName (parts : list jsstring) (name : jsstring) :
  EndsWithName name (JS.join [chSlash] (parts ++ [name])).
Proof.
  rewrite join_snoc. destruct parts as [ | p parts]; [ now left | ].
  right. exists (JS.join [chSlash] (p :: parts)). reflexivity.
Qed.

Lemma EndsWithName_nonempty (name p : jsstring) :
  name <> [] -> EndsWithName name p -> p <> [].
Proof.
  intros Hne [-> | (dir & ->)]; [ exact Hne | ]. now destruct dir.
Qed.

Lemma split_EndsWithName (name p : jsstring) :
  ~ In chSlash name -> EndsWithName name p ->
  exists front, JS.split chSlash p = front ++ [name].
Proof.
  intros Hno [-> | (dir & ->)].
  - exists []. now apply split_whole.
  - exists (JS.split chSlash dir). rewrite split_app. f_equal. now apply split_whole.
Qed.

Lemma endsWithSlash_EndsWithName (name p : jsstring) :
  name <> [] -> ~ In chSlash name -> EndsWithName name p ->
  Path.endsWithSlash p = false.
Proof.
  intros Hne Hno [-> | (dir & ->)].
  - now apply (endsWithSlash_name [] name).
  - change (dir ++ chSlash :: name) with (dir ++ [chSlash] ++ name).
    rewrite app_assoc. now apply endsWithSlash_name.
Qed.

(** [path.normalize] keeps a proper last segment. *)
Lemma normalize_EndsWithName (name p : jsstring) :
  ProperSegment name -> EndsWithName name p -> EndsWithName name (Path.normalize p).
Proof.
  intros Hname Hp. pose proof Hname as (Hne & Hno & _).
  pose proof (EndsWithName_nonempty name p Hne Hp) as Hp_ne.
  destruct (split_EndsWithName name p Hno Hp) as (front & Hsplit).
  unfold Path.normalize. destruct p as [ | c p]; [ now elim Hp_ne | ].
  rewrite (endsWithSlash_EndsWithName name (c :: p) Hne Hno Hp).
  unfold Path.normalizeString, Path.normalizeSegments. rewrite Hsplit.
  rewrite fold_left_snoc, pushSegment_proper by exact Hname.
  cbn [rev].
  pose proof (join_EndsWithName
                (rev (fold_left (Path.pushSegment (negb (Path.isAbsolute (c :: p)))) front []))
                name) as Hbody.
  pose proof (EndsWithName_nonempty name _ Hne Hbody) as Hbody_ne.
  destruct (JS.join [chSlash] _) as [ | b body]; [ now elim Hbody_ne | ].
  destruct (Path.isAbsolute (c :: p)); [ | exact Hbody ].
  destruct Hbody as [E | (dir & E)]; right.
  - exists []. cbn [app]. now rewrite E.
  - exists (chSlash :: dir). cbn [app]. now rewrite E.
Qed.

(** So does [path.join], whatever comes before. *)
Lemma join_last_EndsWithName (parts : list jsstring) (name : jsstring) :
  ProperSegment name -> EndsWithName name (Path.join (parts ++ [name])).
Proof.
  intros Hname. pose proof Hname as (Hne & _).
  unfold Path.join. rewrite filter_app. cbn [filter].
  rewrite jsstring_eqb_neq by exact Hne. cbn [negb].
  pose proof (join_EndsWithName (filter (fun p => negb (jsstring_eqb p [])) parts) name)
    as Hjoined.
  destruct (filter _ parts ++ [name]) eqn:E.
  - apply app_eq_nil in E as [_ E]. discriminate.
  - now apply normalize_EndsWithName.
Qed.

Lemma basename_bare (name : jsstring) :
  name <> [] -> ~ In chSlash name -> Path.basename name = name.
Proof.
  intros Hne Hno. unfold Path.basename.
  destruct (rev_head_last name Hne) as (c & r & E & Hc).
  pose proof (notSlash_all name Hno) as Hall.
  rewrite E. rewrite dropWhile_head by exact (isSlash_false c name Hc Hno).
  rewrite <- E. rewrite <- (app_nil_r (rev name)), takeWhile_all by exact Hall.
  cbn. now rewrite app_nil_r, rev_involutive.
Qed.

Lemma basename_EndsWithName (name p : jsstring) :
  name <> [] -> ~ In chSlash name -> EndsWithName name p -> Path.basename p = name.
Proof.
  intros Hne Hno [-> | (dir & ->)];
    [ now apply basename_bare | now apply basename_name ].
Qed.

Lemma takeWhile_notSlash (s : jsstring) :
  ~ In chSlash (Path.takeWhile Path.notSlash s).
Proof.
  induction s as [ | c s IH]; [ intros [] | ].
  cbn. destruct (Path.notSlash c) eqn:E; [ | intros [] ].
  intros [H | H]; [ | contradiction ]. subst c. discriminate E.
Qed.

(** The name of the HTML file: what follows the last slash, ending in
    [.html]. *)
Lemma basename_html (stem : jsstring) :
  exists name, Path.basename (stem ++ lit ".html") = name ++ lit ".html"
               /\ ~ In chSlash name.
Proof.
  exists (rev (Path.takeWhile Path.notSlash (rev stem))). split.
  - unfold Path.basename. rewrite rev_app_distr.
    change (rev (lit ".html")) with (lit "lmth.").
    change (Path.dropWhile Path.isSlash (lit "lmth." ++ rev stem))
      with (lit "lmth." ++ rev stem).
    rewrite takeWhile_all by (repeat constructor).
    rewrite rev_app_distr. reflexivity.
  - rewrite <- in_rev. apply takeWhile_notSlash.
Qed.

(** The path [compile] reads is not the path whose existence it checks. *)
Lemma htmlPathOf_not_confFile (h : Host) (fsPath dir output : jsstring) :
  htmlPathOf h fsPath dir output <> confFileOf dir.
Proof.
  unfold htmlPathOf, confFileOf.
  destruct (basename_html (JS.substring fsPath 0 (JS.lastIndexOf fsPath chDot)))
    as (name & -> & Hname).
  pose proof (ProperSegment_html name Hname) as Hhtml.
  assert (Hconf : ProperSegment (lit "conf.py")).
  { repeat split; try discriminate.
    cbn; intros G; repeat (destruct G as [G | G]; [ discriminate G | ]); exact G. }
  intros E. apply (f_equal Path.basename) in E.
  change [dir; Path.relative (cwd h) dir output;
          Path.relative (cwd h) dir
            (Path.dirname (JS.substring fsPath 0 (JS.lastIndexOf fsPath chDot) ++ lit ".html"));
          name ++ lit ".html"]
    with ([dir; Path.relative (cwd h) dir output;
           Path.relative (cwd h) dir
             (Path.dirname (JS.substring fsPath 0 (JS.lastIndexOf fsPath chDot) ++ lit ".html"))]
          ++ [name ++ lit ".html"]) in E.
  change [dir; lit "conf.py"] with ([dir] ++ [lit "conf.py"]) in E.
  rewrite (basename_EndsWithName (name ++ lit ".html")) in E;
    [ | apply Hhtml | apply Hhtml | now apply join_last_EndsWithName ].
  rewrite (basename_EndsWithName (lit "conf.py")) in E;
    [ | apply Hconf | apply Hconf | now apply join_last_EndsWithName ].
  apply (f_equal (@rev ascii)) in E. rewrite rev_app_distr in E. discriminate E.
Qed.

(** ** Two runs that differ in [conf.py] *)

Lemma previewPage_outcome (h : Host) (htmlPath input : jsstring) (fl : bool)
      (wv : Webview) :
  outcome (previewPage h htmlPath input fl wv)
  = Normal (Fulfilled (loadedPage h htmlPath fl wv)).
Proof.
  unfold previewPage, loadedPage, Fs.readFile.
  destruct (disk h htmlPath), fl; reflexivity.
Qed.

Lemma loadedPage_withDiskEntry (h : Host) (path htmlPath : jsstring) (entry : FsEntry)
      (fl : bool) (wv : Webview) :
  htmlPath <> path ->
  loadedPage (withDiskEntry h path entry) htmlPath fl wv = loadedPage h htmlPath fl wv.
Proof.
  intros Hne. unfold loadedPage, withDiskEntry. cbn [disk].
  now rewrite jsstring_eqb_neq.
Qed.

(** C10, amended: take a Sphinx request and run it twice, on disks that
    differ only in what is at [conf.py] in the project directory
    (nothing, or anything at all).  When the reset of the status bar is
    fulfilled, both runs return the same HTML. *)
Theorem compile_independent_of_conf_py (h : Host) (this : RSTEngine)
        (fileName : jsstring) (uri : Uri) (dir : jsstring) (fl : bool) (wv : Webview)
        (entry1 entry2 : FsEntry) :
  usesDocutils h dir = false ->
  resetSettles this = true ->
  exists html,
    outcome (compile (withDiskEntry h (confFileOf dir) entry1) this fileName uri dir fl wv)
    = Normal (Fulfilled html)
    /\ outcome (compile (withDiskEntry h (confFileOf dir) entry2) this fileName uri dir fl wv)
       = Normal (Fulfilled html).
Proof.
  intros Hmode Hreset.
  assert (Hrun : forall entry,
             outcome (compile (withDiskEntry h (confFileOf dir) entry) this fileName uri dir fl wv)
             = if error (esbonio this) then Normal (Fulfilled buildErrorPage)
               else if negb (ready (esbonio this)) then Normal (Fulfilled showWait)
               else Normal (Fulfilled
                      (loadedPage h (htmlPathOf h (fsPath uri) dir
                                       (buildDir (sphinxConfig (esbonio this)))) fl wv))).
  { intros entry.
    rewrite compile_sphinx_outcome;
      [ | exact Hmode | rewrite Hreset; apply orb_true_r ].
    rewrite previewPage_outcome.
    change (htmlPathOf (withDiskEntry h (confFileOf dir) entry))
      with (htmlPathOf h).
    rewrite loadedPage_withDiskEntry by apply htmlPathOf_not_confFile.
    reflexivity. }
  rewrite !Hrun.
  destruct (error (esbonio this)); [ eauto | ].
  destruct (ready (esbonio this)); cbn [negb]; eauto.
Qed.

Lemma compile_independent_of_conf_py_sample :
  exists html,
    outcome (compile (withDiskEntry Sample.host (confFileOf (lit "/proj")) NoEntry)
                     (Sample.engine (Some Sample.statusBar) false true)
                     (lit "/proj/docs/index.rst") (Uri_file (lit "/proj/docs/index.rst"))
                     (lit "/proj") true Sample.webview)
    = Normal (Fulfilled html)
    /\ outcome (compile (withDiskEntry Sample.host (confFileOf (lit "/proj")) (Readable []))
                        (Sample.engine (Some Sample.statusBar) false true)
                        (lit "/proj/docs/index.rst") (Uri_file (lit "/proj/docs/index.rst"))
                        (lit "/proj") true Sample.webview)
       = Normal (Fulfilled html).
Proof.
  apply (compile_independent_of_conf_py Sample.host
           (Sample.engine (Some Sample.statusBar) false true)
           (lit "/proj/docs/index.rst") (Uri_file (lit "/proj/docs/index.rst"))
           (lit "/proj") true Sample.webview NoEntry (Readable [])).
  - reflexivity.
  - reflexivity.
Defined.

(** The two runs are told apart by what they do: only the run without
    [conf.py] resets the status bar. *)
Example runs_differ_in_reset :
  In EvStatusReset
     (events (compile (withDiskEntry Sample.host (confFileOf (lit "/proj")) NoEntry)
                      (Sample.engine (Some Sample.statusBar) false true)
                      (lit "/proj/docs/index.rst") (Uri_file (lit "/proj/docs/index.rst"))
                      (lit "/proj") true Sample.webview))
  /\ ~ In EvStatusReset
       (events (compile (withDiskEntry Sample.host (confFileOf (lit "/proj")) (Readable []))
                        (Sample.engine (Some Sample.statusBar) false true)
                        (lit "/proj/docs/index.rst") (Uri_file (lit "/proj/docs/index.rst"))
                        (lit "/proj") true Sample.webview)).
Proof.
  split.
  - vm_compute. tauto.
  - vm_compute. intros H. repeat (destruct H as [H | H]; [ discriminate H | ]). exact H.
Qed.

(** C10, as stated, fails: the two runs part when the reset is rejected.
    On disks that differ only at [conf.py], the run without the file is
    rejected with the reason of the reset, the run with the file returns
    the wait page; there is no HTML that both return. *)
Lemma rejected_reset_parts_the_runs :
  let bar := {| config := Some {| confPyDirectory := lit "/proj" |};
                refreshConfig := fun _ => Fulfilled None;
                reset := Rejected Sample.failing |} in
  let without := compile (withDiskEntry Sample.host (confFileOf (lit "/proj")) NoEntry)
                         (Sample.engine (Some bar) false false)
                         (lit "/proj/a.rst") (Uri_file (lit "/proj/a.rst"))
                         (lit "/proj") true Sample.webview in
  let with_it := compile (withDiskEntry Sample.host (confFileOf (lit "/proj")) (Readable []))
                         (Sample.engine (Some bar) false false)
                         (lit "/proj/a.rst") (Uri_file (lit "/proj/a.rst"))
                         (lit "/proj") true Sample.webview in
  outcome without = Normal (Rejected Sample.failing)
  /\ outcome with_it = Normal (Fulfilled showWait)
  /\ ~ (exists html, outcome without = Normal (Fulfilled html)
                     /\ outcome with_it = Normal (Fulfilled html)).
Proof.
  vm_compute. repeat split. intros (html & H & _). discriminate H.
Qed.

(** * Further properties of the engine *)

(** Where the pattern matches at the head of the document, the match is
    replaced and the rewriting goes on behind it. *)
Lemma fixLinks_match (s documentPath : jsstring) (wv : Webview)
      (m : RegExp.Match) (rest : jsstring) :
  RegExp.execAt s = Some (m, rest) ->
  fixLinks s documentPath wv
  = fixLink documentPath wv (RegExp.subString m) (RegExp.p1 m) (RegExp.p2 m) (RegExp.p3 m)
    ++ fixLinks rest documentPath wv.
Proof.
  intros He. unfold fixLinks, RegExp.replace. now rewrite (scan_match s m rest He).
Qed.




(** The pattern at an attribute that stands at the head of the document:
    the callback gets the opening as group 1, the value as group 2 and
    the closing quote as group 3, and the rewriting goes on behind. *)
Lemma fixLinks_attribute_step
      (name : jsstring) (opening closing : ascii) (v rest documentPath : jsstring)
      (wv : Webview) :
  JS.toLowerCase name = lit "src" \/ JS.toLowerCase name = lit "href" ->
  opening = chQuote \/ opening = chDQuote ->
  closing = chQuote \/ closing = chDQuote ->
  PlainValue v ->
  fixLinks (name ++ [chEquals] ++ [opening] ++ v ++ [closing] ++ rest) documentPath wv
  = fixLink documentPath wv ((name ++ [chEquals] ++ [opening]) ++ v ++ [closing])
            (name ++ [chEquals] ++ [opening]) v [closing]
    ++ fixLinks rest documentPath wv.
Proof.
  intros Hname Hopen Hclose Hv.
  assert (He : RegExp.execAt (name ++ [chEquals] ++ [opening] ++ v ++ [closing] ++ rest)
               = Some ({| RegExp.p1 := name ++ [chEquals] ++ [opening];
                          RegExp.p2 := v; RegExp.p3 := [closing] |}, rest)).
  { unfold RegExp.execAt. rewrite (opener_exact name opening _ Hname Hopen).
    cbn [app]. now rewrite (value_exact v closing rest Hv Hclose). }
  now rewrite (fixLinks_match _ documentPath wv _ _ He).
Qed.

(** What the callback makes of a relative link. *)
Lemma fixLink_relative (documentPath : jsstring) (wv : Webview)
      (subString p1 p2 p3 : jsstring) :
  ~ AnchorOrHttp p2 ->
  fixLink documentPath wv subString p1 p2 p3
  = p1 ++ asWebviewUri wv (Uri_file (Path.join [Path.dirname documentPath; stripQuery p2]))
    ++ p3.
Proof.
  intros Hrel. unfold fixLink. destruct (isAnchorOrHttp p2) eqn:Hskip.
  - elim Hrel. now apply isAnchorOrHttp_spec.
  - reflexivity.
Qed.

(** X12: an attribute at the head of the document -- [src] or [href] in
    any letter case, quotes of either kind, which need not be the same
    at both ends, around a value without quote or line break that is
    neither an anchor nor an http(s) address -- is rewritten.  The
    opening and the closing quote stay; the value becomes the webview's
    address of the value without its query, resolved against the
    directory of the document; the rewriting goes on behind the
    attribute. *)
Theorem fixLinks_rewrites_leading_attribute
        (name : jsstring) (opening closing : ascii) (v rest documentPath : jsstring)
        (wv : Webview) :
  JS.toLowerCase name = lit "src" \/ JS.toLowerCase name = lit "href" ->
  opening = chQuote \/ opening = chDQuote ->
  closing = chQuote \/ closing = chDQuote ->
  PlainValue v ->
  ~ AnchorOrHttp v ->
  fixLinks (name ++ [chEquals] ++ [opening] ++ v ++ [closing] ++ rest) documentPath wv
  = name ++ [chEquals] ++ [opening]
    ++ asWebviewUri wv (Uri_file (Path.join [Path.dirname documentPath; stripQuery v]))
    ++ [closing] ++ fixLinks rest documentPath wv.
Proof.
  intros Hname Hopen Hclose Hv Hrel.
  rewrite (fixLinks_attribute_step name opening closing v rest documentPath wv
             Hname Hopen Hclose Hv).
  rewrite (fixLink_relative documentPath wv _ _ v _ Hrel).
  now rewrite <- !app_assoc.
Qed.

(** *** A value that runs into a line break *)









(** X14: a document all of whose links are anchors or absolute http(s)
    addresses comes back unchanged. *)
Theorem fixLinks_identity_on_external_links (document documentPath : jsstring)
        (wv : Webview) :
  (forall m, In (RegExp.Matched m) (RegExp.scan document) -> AnchorOrHttp (RegExp.p2 m)) ->
  fixLinks document documentPath wv = document.
Proof.
  intros H. rewrite <- (scan_sourceText document) at 2.
  unfold fixLinks, RegExp.replace, sourceText. f_equal.
  apply map_ext_in. intros [c | m] Hin; [ reflexivity | ].
  cbn [RegExp.replaceSegment RegExp.sourceOf]. unfold fixLink.
  apply H, isAnchorOrHttp_spec in Hin. now rewrite Hin.
Qed.

(** ** The docutils branch of [compile] *)

(** X1: with docutils in charge, [compile] calls the renderer once, with
    the quoted arguments, and does nothing else; its promise settles as
    the renderer's does, fulfilled with the same text or rejected with the
    same reason. *)
Theorem compile_docutils (h : Host) (this : RSTEngine) (fileName : jsstring)
        (uri : Uri) (dir : jsstring) (fl : bool) (wv : Webview) :
  usesDocutils h dir = true ->
  outcome (compile h this fileName uri dir fl wv)
  = Normal (exec (python this) (docutilsArgs h fileName uri))
  /\ actions (events (compile h this fileName uri dir fl wv))
     = [EvPythonExec (docutilsArgs h fileName uri)].
Proof.
  intros Hmode. unfold compile. rewrite Hmode. fold (docutilsArgs h fileName uri).
  destruct (jsstring_eqb _ (lit "docutils"));
    destruct (exec (python this) (docutilsArgs h fileName uri)); split; reflexivity.
Qed.

Lemma compile_docutils_sample :
  outcome (compile Sample.host (Sample.engine None true false)
                   (lit "/notes/todo.rst") (Uri_file (lit "/notes/todo.rst")) [] true
                   Sample.webview)
  = Normal (exec (python (Sample.engine None true false))
                 (docutilsArgs Sample.host (lit "/notes/todo.rst")
                               (Uri_file (lit "/notes/todo.rst"))))
  /\ actions (events (compile Sample.host (Sample.engine None true false)
                   (lit "/notes/todo.rst") (Uri_file (lit "/notes/todo.rst")) [] true
                   Sample.webview))
     = [EvPythonExec (docutilsArgs Sample.host (lit "/notes/todo.rst")
                                   (Uri_file (lit "/notes/todo.rst")))].
Proof.
  apply (compile_docutils Sample.host (Sample.engine None true false)
           (lit "/notes/todo.rst") (Uri_file (lit "/notes/todo.rst")) [] true
           Sample.webview).
  reflexivity.
Defined.

(** ** The check of [conf.py] *)

(** X2: when [conf.py] is missing and the reset of the status bar is
    rejected, the promise of [compile] is rejected with the same reason;
    the backend is not looked at and nothing is read. *)
Theorem compile_reset_rejected (h : Host) (this : RSTEngine) (fileName : jsstring)
        (uri : Uri) (dir : jsstring) (fl : bool) (wv : Webview)
        (st : RstTransformerStatus) (t : Thrown) :
  usesDocutils h dir = false ->
  confPyFound h dir = false ->
  status this = Some st ->
  reset st = Rejected t ->
  outcome (compile h this fileName uri dir fl wv) = Normal (Rejected t)
  /\ actions (events (compile h this fileName uri dir fl wv))
     = [EvExistsSync (confFileOf dir); EvStatusReset].
Proof.
  intros Hmode Hfound Hst Hreset. revert Hfound.
  unfold compile, confPyFound, confFileOf, Fs.existsSync. rewrite Hmode, Hst, Hreset.
  destruct (disk h _); [ | discriminate | discriminate ]. intros _.
  split; reflexivity.
Qed.

Lemma compile_reset_rejected_sample :
  outcome (compile Sample.host (Sample.engine (Some Built.stuckBar) false true)
                   (lit "/other/a.rst") (Uri_file (lit "/other/a.rst")) (lit "/other") true
                   Sample.webview)
  = Normal (Rejected Sample.failing)
  /\ actions (events (compile Sample.host (Sample.engine (Some Built.stuckBar) false true)
                   (lit "/other/a.rst") (Uri_file (lit "/other/a.rst")) (lit "/other") true
                   Sample.webview))
     = [EvExistsSync (confFileOf (lit "/other")); EvStatusReset].
Proof.
  apply (compile_reset_rejected Sample.host (Sample.engine (Some Built.stuckBar) false true)
           (lit "/other/a.rst") (Uri_file (lit "/other/a.rst")) (lit "/other") true
           Sample.webview Built.stuckBar Sample.failing); reflexivity.
Defined.

(** ** A request that goes through *)

(** X3: a Sphinx request with the backend ready, no build error and the
    HTML file readable is fulfilled with the text of that file, its links
    rewritten when asked for and untouched otherwise; it checks [conf.py]
    and reads the HTML file, each once. *)
Theorem compile_sphinx_page (h : Host) (this : RSTEngine) (fileName : jsstring)
        (uri : Uri) (dir : jsstring) (fl : bool) (wv : Webview) (data : jsstring) :
  usesDocutils h dir = false ->
  confPyFound h dir || resetSettles this = true ->
  error (esbonio this) = false ->
  ready (esbonio this) = true ->
  let htmlPath := htmlPathOf h (fsPath uri) dir (buildDir (sphinxConfig (esbonio this))) in
  disk h htmlPath = Readable data ->
  outcome (compile h this fileName uri dir fl wv)
  = Normal (Fulfilled (if fl then fixLinks data htmlPath wv else data))
  /\ fsAccesses (events (compile h this fileName uri dir fl wv))
     = [EvExistsSync (confFileOf dir); EvReadFile htmlPath].
Proof.
  intros Hmode Hconf Herr Hready htmlPath Hdisk. subst htmlPath.
  rewrite (compile_sphinx_outcome h this fileName uri dir fl wv Hmode Hconf).
  rewrite (compile_sphinx_accesses h this fileName uri dir fl wv Hmode Hconf).
  rewrite Herr, Hready. cbn [negb]. split; [ | reflexivity ].
  rewrite previewPage_outcome. unfold loadedPage. now rewrite Hdisk.
Qed.

Lemma compile_sphinx_page_sample :
  outcome (compile Built.host (Sample.engine (Some Sample.statusBar) false true)
                   (lit "/proj/docs/index.rst") (Uri_file (lit "/proj/docs/index.rst"))
                   (lit "/proj") false Sample.webview)
  = Normal (Fulfilled Built.page)
  /\ fsAccesses (events (compile Built.host (Sample.engine (Some Sample.statusBar) false true)
                   (lit "/proj/docs/index.rst") (Uri_file (lit "/proj/docs/index.rst"))
                   (lit "/proj") false Sample.webview))
     = [EvExistsSync (confFileOf (lit "/proj"));
        EvReadFile (htmlPathOf Built.host (lit "/proj/docs/index.rst") (lit "/proj")
                               (lit "/proj/_build/html"))].
Proof.
  apply (compile_sphinx_page Built.host (Sample.engine (Some Sample.statusBar) false true)
           (lit "/proj/docs/index.rst") (Uri_file (lit "/proj/docs/index.rst"))
           (lit "/proj") false Sample.webview Built.page); reflexivity.
Defined.

(** ** [preview] and [compile] *)

Lemma compile_is_async (h : Host) (this : RSTEngine) (fileName : jsstring)
      (uri : Uri) (dir : jsstring) (fl : bool) (wv : Webview) :
  exists p, outcome (compile h this fileName uri dir fl wv) = Normal p.
Proof. unfold compile. apply async_completes_normally. Qed.

(** X4: once [preview] has a directory, its promise is the promise of
    [compile] for that directory, with link rewriting on: fulfilled with
    the same page or rejected with the same reason.  The [catch] of
    [preview] has no part in what [compile] does. *)
Theorem preview_settles_as_compile (h : Host) (this : RSTEngine)
        (doc : TextDocument) (wv : Webview) (dir : jsstring) :
  DirectoryFor this doc dir ->
  outcome (preview h this doc wv)
  = outcome (compile h this (fileName doc) (uri doc) dir true wv).
Proof.
  intros Hdir.
  destruct (compile_is_async h this (fileName doc) (uri doc) dir true wv) as [p Hp].
  rewrite Hp. revert Hp. unfold preview.
  destruct Hdir as [Hst | st c Hst Hcfg | st c Hst Hcfg Hrefresh];
    rewrite Hst; try rewrite Hcfg; try rewrite Hrefresh; run_eff;
    destruct (compile _ _ _ _ _ _ _) as [tr cp]; cbn [outcome snd]; intros ->;
    reflexivity.
Qed.

Lemma preview_settles_as_compile_sample :
  outcome (preview Built.host (Sample.engine (Some Sample.statusBar) false true)
                   Built.document Sample.webview)
  = outcome (compile Built.host (Sample.engine (Some Sample.statusBar) false true)
                     (fileName Built.document) (uri Built.document) (lit "/proj") true
                     Sample.webview).
Proof.
  apply (preview_settles_as_compile Built.host
           (Sample.engine (Some Sample.statusBar) false true)
           Built.document Sample.webview (lit "/proj")).
  apply (Configured _ _ Sample.statusBar {| confPyDirectory := lit "/proj" |});
    reflexivity.
Defined.

Lemma preview_absorbs_refreshConfig_sample :
  outcome (preview Sample.host
                   (Sample.engine (Some (Built.freshBar (Rejected Sample.failing))) false true)
                   Built.document Sample.webview)
  = Normal (Fulfilled (errorSnippet (Thrown_toString Sample.failing))).
Proof.
  apply (preview_absorbs_refreshConfig Sample.host
           (Sample.engine (Some (Built.freshBar (Rejected Sample.failing))) false true)
           (Built.freshBar (Rejected Sample.failing)) Built.document Sample.webview
           Sample.failing); reflexivity.
Defined.

(** X6: when the refresh leaves the status bar without a configuration,
    reading the directory off it throws inside the [try]: [preview]
    answers with the error snippet of a [TypeError], and [compile] is not
    called: no renderer, no file system, no log. *)
Theorem preview_without_configuration (h : Host) (this : RSTEngine)
        (st : RstTransformerStatus) (doc : TextDocument) (wv : Webview) :
  status this = Some st ->
  config st = None ->
  refreshConfig st (uri doc) = Fulfilled None ->
  events (preview h this doc wv) = [EvRefreshConfig (uri doc)]
  /\ exists message,
       outcome (preview h this doc wv)
       = Normal (Fulfilled (errorSnippet (lit "TypeError: " ++ message))).
Proof.
  intros Hst Hcfg Hrefresh. unfold preview. rewrite Hst, Hcfg, Hrefresh.
  split; [ reflexivity | ]. eexists. reflexivity.
Qed.

Lemma preview_without_configuration_sample :
  events (preview Sample.host
                  (Sample.engine (Some (Built.freshBar (Fulfilled None))) false true)
                  Built.document Sample.webview)
  = [EvRefreshConfig (uri Built.document)]
  /\ exists message,
       outcome (preview Sample.host
                        (Sample.engine (Some (Built.freshBar (Fulfilled None))) false true)
                        Built.document Sample.webview)
       = Normal (Fulfilled (errorSnippet (lit "TypeError: " ++ message))).
Proof.
  apply (preview_without_configuration Sample.host
           (Sample.engine (Some (Built.freshBar (Fulfilled None))) false true)
           (Built.freshBar (Fulfilled None)) Built.document Sample.webview);
    reflexivity.
Defined.

(** ** Paths with [..] in them *)

Lemma climb_no_slash (k : nat) : Forall (fun s => ~ In chSlash s) (climb k).
Proof.
  induction k; constructor; [ | assumption ].
  cbn. intros [H | [H | []]]; discriminate H.
Qed.

Lemma climb_nonempty (k : nat) : Forall (fun s : jsstring => s <> []) (climb k).
Proof. induction k; constructor; [ discriminate | assumption ]. Qed.

Lemma Proper_nonempty (segs : list jsstring) :
  Forall ProperSegment segs -> Forall (fun s : jsstring => s <> []) segs.
Proof. apply Forall_impl. intros s (H & _). exact H. Qed.

Lemma map_climb (up : list jsstring) :
  map (fun _ => Path.dotdot) up = climb (length up).
Proof. induction up; cbn; [ reflexivity | now f_equal ]. Qed.

(** Each [..] takes back the segment before it. *)
Lemma fold_climb (allow : bool) (up kept : list jsstring) :
  Forall ProperSegment up ->
  fold_left (Path.pushSegment allow) (climb (length up)) (rev up ++ kept) = kept.
Proof.
  induction up as [ | x up IH] using rev_ind; intros H; [ reflexivity | ].
  apply Forall_app in H as [Hup Hx]. inversion Hx as [ | ? ? (Hne & _ & _ & Hdd) _]; subst.
  rewrite length_app, Nat.add_1_r, rev_app_distr. cbn [rev app climb repeat fold_left].
  unfold Path.pushSegment at 2.
  change (jsstring_eqb Path.dotdot [] || jsstring_eqb Path.dotdot Path.dot) with false.
  change (jsstring_eqb Path.dotdot Path.dotdot) with true. cbv iota.
  rewrite (jsstring_eqb_neq x Path.dotdot Hdd). now apply IH.
Qed.

Lemma normalizeSegments_climb (allow : bool) (base up rest : list jsstring) :
  Forall ProperSegment base -> Forall ProperSegment up -> Forall ProperSegment rest ->
  Path.normalizeSegments allow (absolutePath (base ++ up ++ climb (length up) ++ rest))
  = base ++ rest.
Proof.
  intros Hbase Hup Hrest. unfold Path.normalizeSegments.
  rewrite split_absolutePath.
  - cbn [fold_left]. change (Path.pushSegment allow [] []) with (@nil jsstring).
    rewrite (app_assoc base up), fold_left_app.
    rewrite (fold_pushSegment_proper allow (base ++ up) [])
      by (apply Forall_app; split; assumption).
    rewrite fold_left_app, app_nil_r, rev_app_distr, (fold_climb allow up _ Hup).
    rewrite (fold_pushSegment_proper allow rest _ Hrest).
    now rewrite rev_app_distr, !rev_involutive.
  - repeat (apply Forall_app; split); try (now apply Proper_no_slash).
    apply climb_no_slash.
Qed.

(** [path.normalize] of an absolute path that climbs back over some of
    its own segments. *)
Lemma normalize_climb (base up rest : list jsstring) :
  Forall ProperSegment base -> Forall ProperSegment up -> Forall ProperSegment rest ->
  rest <> [] ->
  Path.normalize (absolutePath (base ++ up ++ climb (length up) ++ rest))
  = absolutePath (base ++ rest).
Proof.
  intros Hbase Hup Hrest Hne.
  assert (Hall : base ++ up ++ climb (length up) ++ rest <> []).
  { intros E. apply app_eq_nil in E as [_ E]. apply app_eq_nil in E as [_ E].
    apply app_eq_nil in E as [_ E]. contradiction. }
  assert (Hkept : base ++ rest <> []).
  { intros E. apply app_eq_nil in E as [_ E]. contradiction. }
  destruct (Forall_last _ rest Hne Hrest) as (init & seg & Hsegs & Hseg & Hslash & _).
  assert (Htrail : Path.endsWithSlash (absolutePath (base ++ up ++ climb (length up) ++ rest))
                   = false).
  { rewrite Hsegs, !app_assoc, absolutePath_snoc.
    match goal with |- Path.endsWithSlash (?x ++ chSlash :: seg) = false =>
      change (x ++ chSlash :: seg) with (x ++ [chSlash] ++ seg); rewrite app_assoc end.
    now apply endsWithSlash_name. }
  pose proof (absolutePath_join _ Hall) as E.
  rewrite E at 1. rewrite normalize_rooted, <- E, Htrail. cbv zeta.
  unfold Path.normalizeString. rewrite normalizeSegments_climb by assumption.
  pose proof (join_nonempty (base ++ rest) Hkept
                (proj2 (Forall_app _ _ _) (conj Hbase Hrest))) as Hbody.
  rewrite (absolutePath_join _ Hkept).
  destruct (JS.join [chSlash] (base ++ rest)); [ now elim Hbody | reflexivity ].
Qed.

Lemma join_first_nonempty (segs : list jsstring) :
  segs <> [] -> Forall (fun s : jsstring => s <> []) segs -> JS.join [chSlash] segs <> [].
Proof.
  intros Hne H. destruct H as [ | s segs Hs _]; [ now elim Hne | ].
  destruct s; [ now elim Hs | ]. destruct segs; discriminate.
Qed.

(** Joining a path with runs of segments, none of them empty. *)
Lemma join_runs_any (first : jsstring) (runs : list (list jsstring)) :
  Forall (Forall (fun s : jsstring => s <> [])) runs ->
  JS.join [chSlash] (first :: filter nonEmpty (map (JS.join [chSlash]) runs))
  = first ++ absolutePath (concat runs).
Proof.
  intros H. revert first. induction H as [ | run runs Hrun Hruns IH]; intros first.
  - cbn. now rewrite app_nil_r.
  - cbn [map filter concat]. unfold nonEmpty at 1.
    destruct run as [ | s run].
    + cbn [JS.join app]. rewrite jsstring_eqb_refl. cbn [negb]. apply IH.
    + rewrite jsstring_eqb_neq by (apply join_first_nonempty; [ discriminate | exact Hrun ]).
      cbn [negb]. rewrite join_cons, IH, absolutePath_app.
      rewrite (absolutePath_join (s :: run)) by discriminate.
      reflexivity.
Qed.

(** [path.join] of an absolute directory and such runs: the segments
    are put in a row and the row is normalized. *)
Lemma join_paths (dir : list jsstring) (runs : list (list jsstring)) :
  dir <> [] ->
  Forall (Forall (fun s : jsstring => s <> [])) runs ->
  Path.join (absolutePath dir :: map (JS.join [chSlash]) runs)
  = Path.normalize (absolutePath (dir ++ concat runs)).
Proof.
  intros Hne Hruns. unfold Path.join. cbn [filter].
  assert (Hd : absolutePath dir <> []).
  { intros E. apply absolutePath_nil_iff in E. contradiction. }
  rewrite jsstring_eqb_neq by exact Hd. cbn [negb].
  change (fun p : jsstring => negb (jsstring_eqb p [])) with nonEmpty.
  rewrite join_runs_any by exact Hruns.
  now rewrite <- absolutePath_app.
Qed.

Lemma dropCommon_spec (from to up down : list jsstring) :
  Path.dropCommon from to = (up, down) ->
  exists common, from = common ++ up /\ to = common ++ down.
Proof.
  revert to. induction from as [ | f from IH]; intros to H.
  - cbn in H. injection H as <- <-. now exists [].
  - destruct to as [ | t to]; cbn in H.
    + injection H as <- <-. now exists [].
    + destruct (jsstring_eqb f t) eqn:E.
      * apply jsstring_eqb_eq in E. subst t.
        destruct (IH to H) as (common & -> & ->). now exists (f :: common).
      * injection H as <- <-. now exists [].
Qed.

(** From one directory to any other, [path.relative] climbs out of what
    the two do not share and goes down the rest. *)
Lemma relative_anywhere (cwd : jsstring) (from to : list jsstring) :
  from <> [] -> to <> [] ->
  Forall ProperSegment from -> Forall ProperSegment to ->
  exists common up down,
    from = common ++ up /\ to = common ++ down
    /\ Path.relative cwd (absolutePath from) (absolutePath to)
       = JS.join [chSlash] (climb (length up) ++ down).
Proof.
  intros Hfrom Hto Pfrom Pto. unfold Path.relative.
  destruct (jsstring_eqb (absolutePath from) (absolutePath to)) eqn:E.
  - apply jsstring_eqb_eq in E.
    apply (f_equal (JS.split chSlash)) in E.
    rewrite !split_absolutePath in E by now apply Proper_no_slash.
    injection E as ->. exists to, [], []. now rewrite app_nil_r.
  - rewrite !resolve_absolutePath by assumption. rewrite E.
    rewrite !segmentsOf_absolutePath by assumption.
    destruct (Path.dropCommon from to) as [up down] eqn:D.
    destruct (dropCommon_spec _ _ _ _ D) as (common & -> & ->).
    exists common, up, down. now rewrite map_climb.
Qed.

(** ** The path of the built file, in general *)

(** The source side of the HTML path: the extension is replaced, the
    directory and the name are taken apart, and the directories below
    the project directory are what [path.relative] finds. *)
Lemma htmlPathOf_of_source (h : Host) (project below : list jsstring)
      (stem ext output : jsstring) :
  project <> [] ->
  Forall ProperSegment project -> Forall ProperSegment below ->
  ~ In chSlash stem -> ~ In chDot ext ->
  htmlPathOf h (absolutePath (project ++ below) ++ chSlash :: stem ++ chDot :: ext)
             (absolutePath project) output
  = Path.join [absolutePath project;
               Path.relative (cwd h) (absolutePath project) output;
               JS.join [chSlash] below;
               stem ++ lit ".html"].
Proof.
  intros Hne Hproject Hbelow Hstem Hext.
  pose proof (ProperSegment_html stem Hstem) as (Hname_ne & Hname_slash & _).
  unfold htmlPathOf.
  change (absolutePath (project ++ below) ++ chSlash :: stem ++ chDot :: ext)
    with (absolutePath (project ++ below) ++ (chSlash :: stem) ++ chDot :: ext).
  rewrite app_assoc.
  rewrite (extension_replaced (absolutePath (project ++ below) ++ chSlash :: stem) ext Hext).
  rewrite <- app_assoc. cbn [app].
  assert (Hdir : exists dir, absolutePath (project ++ below) = chSlash :: dir /\ dir <> []).
  { rewrite absolutePath_join by (intros E; apply app_eq_nil in E as [E _]; contradiction).
    eexists. split; [ reflexivity | ].
    apply join_nonempty.
    - intros E. apply app_eq_nil in E as [E _]. contradiction.
    - now apply Forall_app. }
  destruct Hdir as (dir & Edir & Hdir).
  rewrite Edir at 1 2.
  rewrite (dirname_name chSlash dir (stem ++ lit ".html") Hname_ne Hname_slash (or_introl Hdir)).
  rewrite (basename_name (chSlash :: dir) (stem ++ lit ".html") Hname_ne Hname_slash).
  rewrite <- Edir.
  now rewrite (relative_below (cwd h) project below Hne Hproject Hbelow).
Qed.

(** The output side: from the project directory up to what it shares
    with the output directory, down into the output directory, then the
    directories of the source and the name. *)
Lemma join_over_output (common up down below : list jsstring) (name : jsstring) :
  common ++ up <> [] ->
  Forall ProperSegment common -> Forall ProperSegment up ->
  Forall ProperSegment down -> Forall ProperSegment below ->
  ProperSegment name ->
  Path.join [absolutePath (common ++ up);
             JS.join [chSlash] (climb (length up) ++ down);
             JS.join [chSlash] below;
             name]
  = absolutePath ((common ++ down) ++ below) ++ chSlash :: name.
Proof.
  intros Hne Hcommon Hup Hdown Hbelow Hname. pose proof Hname as (Hname_ne & _).
  change [absolutePath (common ++ up); JS.join [chSlash] (climb (length up) ++ down);
          JS.join [chSlash] below; name]
    with (absolutePath (common ++ up)
          :: map (JS.join [chSlash]) [climb (length up) ++ down; below; [name]]).
  rewrite join_paths.
  - cbn [concat]. rewrite app_nil_r, <- !app_assoc.
    rewrite normalize_climb.
    + rewrite !app_assoc, absolutePath_snoc. now rewrite <- !app_assoc.
    + exact Hcommon.
    + exact Hup.
    + repeat (apply Forall_app; split); try assumption.
      apply Forall_cons; [ exact Hname | apply Forall_nil ].
    + intros E. apply app_eq_nil in E as [_ E]. apply app_eq_nil in E as [_ E].
      discriminate E.
  - exact Hne.
  - apply Forall_cons; [ | apply Forall_cons; [ | apply Forall_cons; [ | apply Forall_nil ] ] ].
    + apply Forall_app. split; [ apply climb_nonempty | now apply Proper_nonempty ].
    + now apply Proper_nonempty.
    + apply Forall_cons; [ exact Hname_ne | apply Forall_nil ].
Qed.

(** X8: wherever the output directory lies -- inside the project, beside
    it or elsewhere -- the HTML file of a source [stem.ext] in the
    directories [below] the project directory is [stem.html] in the
    directories [below] the output directory. *)
Theorem htmlPathOf_output_anywhere (h : Host) (project out below : list jsstring)
        (stem ext : jsstring) :
  project <> [] -> out <> [] ->
  Forall ProperSegment project -> Forall ProperSegment out ->
  Forall ProperSegment below ->
  ~ In chSlash stem -> ~ In chDot ext ->
  htmlPathOf h (absolutePath (project ++ below) ++ chSlash :: stem ++ chDot :: ext)
             (absolutePath project) (absolutePath out)
  = absolutePath (out ++ below) ++ chSlash :: stem ++ lit ".html".
Proof.
  intros Hne Hout_ne Hproject Hout Hbelow Hstem Hext.
  rewrite (htmlPathOf_of_source h project below stem ext _ Hne Hproject Hbelow Hstem Hext).
  destruct (relative_anywhere (cwd h) project out Hne Hout_ne Hproject Hout)
    as (common & up & down & -> & -> & ->).
  apply Forall_app in Hproject as [Hcommon Hup]. apply Forall_app in Hout as [_ Hdown].
  apply (join_over_output common up down below (stem ++ lit ".html") Hne
           Hcommon Hup Hdown Hbelow (ProperSegment_html stem Hstem)).
Qed.

(** Solves [Forall ProperSegment], [~ In c s] and [l <> []] on given
    lists. *)
Ltac given_segments :=
  lazymatch goal with
  | |- _ <> _ => discriminate
  | |- ~ In _ _ =>
      cbn; let G := fresh in
      intros G; repeat (destruct G as [G | G]; [ discriminate G | ]); exact G
  | |- Forall ProperSegment _ =>
      repeat (apply Forall_cons; [ repeat split; given_segments | ]); apply Forall_nil
  end.

Lemma htmlPathOf_output_anywhere_sample :
  htmlPathOf Sample.host
             (absolutePath ([lit "home"; lit "user"; lit "proj"] ++ [lit "guide"])
              ++ chSlash :: lit "intro" ++ chDot :: lit "rst")
             (absolutePath [lit "home"; lit "user"; lit "proj"])
             (absolutePath [lit "srv"; lit "www"; lit "docs"])
  = absolutePath ([lit "srv"; lit "www"; lit "docs"] ++ [lit "guide"])
    ++ chSlash :: lit "intro" ++ lit ".html".
Proof.
  apply (htmlPathOf_output_anywhere Sample.host [lit "home"; lit "user"; lit "proj"]
           [lit "srv"; lit "www"; lit "docs"] [lit "guide"] (lit "intro") (lit "rst"));
    given_segments.
Defined.

(** X9: whatever the source, the project directory and the output
    directory are, the file [compile] goes on to read has a name that
    ends in [.html]. *)
Theorem htmlPathOf_names_html (h : Host) (fsPath dir output : jsstring) :
  exists name,
    Path.basename (htmlPathOf h fsPath dir output) = name ++ lit ".html"
    /\ ~ In chSlash name.
Proof.
  unfold htmlPathOf.
  destruct (basename_html (JS.substring fsPath 0 (JS.lastIndexOf fsPath chDot)))
    as (name & -> & Hname).
  pose proof (ProperSegment_html name Hname) as Hhtml.
  exists name. split; [ | exact Hname ].
  match goal with |- Path.basename (Path.join [?a; ?b; ?c; ?d]) = _ =>
    change [a; b; c; d] with ([a; b; c] ++ [d]) end.
  apply basename_EndsWithName; [ apply Hhtml | apply Hhtml | ].
  now apply join_last_EndsWithName.
Qed.

(** X10: what follows the last dot of the source path has no part in the
    result, be it an extension or not. *)
Theorem htmlPathOf_ignores_after_last_dot (h : Host) (stem ext ext' dir output : jsstring) :
  ~ In chDot ext -> ~ In chDot ext' ->
  htmlPathOf h (stem ++ chDot :: ext) dir output
  = htmlPathOf h (stem ++ chDot :: ext') dir output.
Proof.
  intros Hext Hext'. unfold htmlPathOf.
  now rewrite (extension_replaced stem ext Hext), (extension_replaced stem ext' Hext').
Qed.

Lemma htmlPathOf_ignores_after_last_dot_sample :
  htmlPathOf Sample.host (lit "/proj/docs/index" ++ chDot :: lit "rst") (lit "/proj")
             (lit "/proj/_build/html")
  = htmlPathOf Sample.host (lit "/proj/docs/index" ++ chDot :: lit "md") (lit "/proj")
               (lit "/proj/_build/html").
Proof.
  apply (htmlPathOf_ignores_after_last_dot Sample.host (lit "/proj/docs/index")
           (lit "rst") (lit "md") (lit "/proj") (lit "/proj/_build/html"));
    given_segments.
Defined.

(** X11: two sources without a dot anywhere in their paths have the same
    HTML file. *)
Theorem htmlPathOf_without_dot_collide (h : Host) (fsPath fsPath' dir output : jsstring) :
  ~ In chDot fsPath -> ~ In chDot fsPath' ->
  htmlPathOf h fsPath dir output = htmlPathOf h fsPath' dir output.
Proof.
  intros H H'. unfold htmlPathOf.
  now rewrite (extension_without_dot fsPath H), (extension_without_dot fsPath' H').
Qed.

Lemma htmlPathOf_without_dot_collide_sample :
  htmlPathOf Sample.host (lit "/proj/README") (lit "/proj") (lit "/proj/_build/html")
  = htmlPathOf Sample.host (lit "/proj/docs/LICENSE") (lit "/proj") (lit "/proj/_build/html").
Proof.
  apply (htmlPathOf_without_dot_collide Sample.host (lit "/proj/README")
           (lit "/proj/docs/LICENSE") (lit "/proj") (lit "/proj/_build/html"));
    given_segments.
Defined.

(** ** Where a relative link points *)


(** Solves [PlainValue] on a given value. *)
Ltac given_value :=
  unfold PlainValue; vm_compute;
  repeat (apply Forall_cons; [ repeat split; discriminate | ]); apply Forall_nil.


Lemma fixLinks_rewrites_leading_attribute_sample :
  fixLinks (lit "SRC" ++ [chEquals] ++ [chDQuote] ++ lit "it" ++ [chQuote] ++ lit "s.png")
           (lit "/x/y.html") Sample.webview
  = lit "SRC" ++ [chEquals] ++ [chDQuote]
    ++ asWebviewUri Sample.webview
         (Uri_file (Path.join [Path.dirname (lit "/x/y.html"); stripQuery (lit "it")]))
    ++ [chQuote] ++ fixLinks (lit "s.png") (lit "/x/y.html") Sample.webview.
Proof.
  apply (fixLinks_rewrites_leading_attribute (lit "SRC") chDQuote chQuote (lit "it")
           (lit "s.png") (lit "/x/y.html") Sample.webview).
  - left. reflexivity.
  - right. reflexivity.
  - left. reflexivity.
  - given_value.
  - apply not_AnchorOrHttp. reflexivity.
Defined.


Lemma fixLinks_identity_on_external_links_sample :
  fixLinks (lit "<a href='#top'>up</a> <a href='HTTPS://example.com/'>out</a>")
           (lit "/x/y.html") Sample.webview
  = lit "<a href='#top'>up</a> <a href='HTTPS://example.com/'>out</a>".
Proof.
  apply (fixLinks_identity_on_external_links
           (lit "<a href='#top'>up</a> <a href='HTTPS://example.com/'>out</a>")
           (lit "/x/y.html") Sample.webview).
  intros m Hin. apply isAnchorOrHttp_spec. vm_compute in Hin.
  repeat (destruct Hin as [Hin | Hin];
          [ first [ discriminate Hin | injection Hin as <-; reflexivity ] | ]).
  contradiction.
Defined.

(** ** A preview from end to end *)

(** X7: the whole way of a preview.  With the project directory known to
    the status bar, Sphinx in charge, [conf.py] in place (or the reset
    fulfilled), the backend ready and without error and the HTML file
    readable, [preview] of the source [stem.ext] in the directories
    [below] the project directory is fulfilled with the text of
    [stem.html] in the directories [below] the output directory, its
    links rewritten against the place of that file. *)
Theorem preview_shows_built_page (h : Host) (this : RSTEngine)
        (st : RstTransformerStatus) (c : StatusConfig)
        (doc : TextDocument) (wv : Webview)
        (project out below : list jsstring) (stem ext data : jsstring) :
  status this = Some st -> config st = Some c ->
  confPyDirectory c = absolutePath project ->
  buildDir (sphinxConfig (esbonio this)) = absolutePath out ->
  fsPath (uri doc) = absolutePath (project ++ below) ++ chSlash :: stem ++ chDot :: ext ->
  project <> [] -> out <> [] ->
  Forall ProperSegment project -> Forall ProperSegment out ->
  Forall ProperSegment below ->
  ~ In chSlash stem -> ~ In chDot ext ->
  Configuration.getPreviewName (settings h) <> lit "docutils" ->
  confPyFound h (absolutePath project) || resetSettles this = true ->
  error (esbonio this) = false ->
  ready (esbonio this) = true ->
  let htmlPath := absolutePath (out ++ below) ++ chSlash :: stem ++ lit ".html" in
  disk h htmlPath = Readable data ->
  outcome (preview h this doc wv) = Normal (Fulfilled (fixLinks data htmlPath wv)).
Proof.
  intros Hst Hcfg Hdir Hbuild Hsource Hne Hout_ne Hproject Hout Hbelow Hstem Hext
         Hname Hconf Herr Hready htmlPath Hdisk.
  assert (Hmode : usesDocutils h (absolutePath project) = false).
  { unfold usesDocutils. rewrite (jsstring_eqb_neq _ _ Hname), orb_false_r.
    apply jsstring_eqb_neq. intros E. apply absolutePath_nil_iff in E. contradiction. }
  (* the HTML path *)
  assert (Hpath : htmlPathOf h (fsPath (uri doc)) (absolutePath project)
                             (buildDir (sphinxConfig (esbonio this))) = htmlPath).
  { rewrite Hsource, Hbuild.
    rewrite (htmlPathOf_of_source h project below stem ext _ Hne Hproject Hbelow Hstem Hext).
    destruct (relative_anywhere (cwd h) project out Hne Hout_ne Hproject Hout)
      as (common & up & down & Eproject & Eout & ->).
    subst htmlPath. rewrite Eout. revert Hne Hproject Hout. rewrite Eproject, Eout.
    intros Hne Hproject Hout.
    apply Forall_app in Hproject as [Hcommon Hup]. apply Forall_app in Hout as [_ Hdown].
    apply (join_over_output common up down below (stem ++ lit ".html") Hne
             Hcommon Hup Hdown Hbelow (ProperSegment_html stem Hstem)). }
  (* [compile], from the gate to the loader *)
  assert (Hcompile : outcome (compile h this (fileName doc) (uri doc) (absolutePath project)
                                      true wv)
                     = Normal (Fulfilled (fixLinks data htmlPath wv))).
  { rewrite (compile_sphinx_outcome h this (fileName doc) (uri doc) (absolutePath project)
               true wv Hmode Hconf).
    rewrite Herr, Hready, Hpath. cbn [negb].
    rewrite previewPage_outcome. unfold loadedPage. now rewrite Hdisk. }
  (* [preview] hands on the promise of [compile] *)
  revert Hcompile. unfold preview. rewrite Hst, Hcfg. run_eff. rewrite Hdir.
  destruct (compile _ _ _ _ _ _ _) as [tr cp]. cbn [outcome snd]. intros ->.
  reflexivity.
Qed.

Lemma preview_shows_built_page_sample :
  outcome (preview Built.host (Sample.engine (Some Sample.statusBar) false true)
                   Built.document Sample.webview)
  = Normal (Fulfilled
      (fixLinks Built.page
         (absolutePath ([lit "proj"; lit "_build"; lit "html"] ++ [lit "docs"])
          ++ chSlash :: lit "index" ++ lit ".html")
         Sample.webview)).
Proof.
  apply (preview_shows_built_page Built.host
           (Sample.engine (Some Sample.statusBar) false true)
           Sample.statusBar {| confPyDirectory := lit "/proj" |}
           Built.document Sample.webview
           [lit "proj"] [lit "proj"; lit "_build"; lit "html"] [lit "docs"]
           (lit "index") (lit "rst") Built.page);
    try reflexivity; try given_segments.
Defined.

(** What the sample preview shows: the image of the page now has the
    address the webview gives for the file beside the page. *)
Example preview_sample_page :
  outcome (preview Built.host (Sample.engine (Some Sample.statusBar) false true)
                   Built.document Sample.webview)
  = Normal (Fulfilled
      (lit "<h1>Index</h1><img src=" ++ dq
       ++ lit "sandbox://proj/_build/html/docs/logo.png" ++ dq ++ lit ">")).
Proof. vm_compute. reflexivity. Qed.

(** ** A link that starts with a slash *)



